(** * ksctl [adm restart]: a shallow embedding of pkg/cmd/adm/restart.go

    The command restarts an operator in two phases.  Deployments owned by
    OLM (label [olm.owner.kind=ClusterServiceVersion]) are recycled by
    deleting their pods; deployments carrying the label
    [provider=codeready-toolchain] are restarted with a rollout restart.
    After each step the command waits on [kubectl rollout status].

    The Go functions are embedded as computations in a small monad that
    threads the cluster store and a trace of every call made to a
    collaborator (cluster client, terminal, kubectl).  The collaborators
    themselves are not part of the repository: their failures are taken
    from a [World] of oracles, and the cluster client is given the label
    semantics of the Kubernetes API. *)

From stdpp Require Import base strings list gmap fin_maps.

Local Open Scope string_scope.
Local Open Scope list_scope.

(** ** Data model *)

(** A Go [error] is identified with its message; [None] is the nil error. *)
Definition error := string.

(** configuration.ClusterConfig, restricted to the fields [restart] reads. *)
Record ClusterConfig := {
  Token : string;
  ServerAPI : string;
  OperatorNamespace : string
}.

(** appsv1.Deployment: object metadata and [Spec.Selector].  The selector is
    a pointer in Go, hence the option; only its [MatchLabels] part is
    modelled. *)
Record Deployment := {
  deploy_Name : string;
  deploy_Namespace : string;
  deploy_Labels : gmap string string;
  deploy_Selector : option (gmap string string)
}.

(** corev1.Pod: object metadata. *)
Record Pod := {
  pod_Name : string;
  pod_Namespace : string;
  pod_Labels : gmap string string
}.

(** labels.Selector as produced by metav1.LabelSelectorAsSelector. *)
Inductive Selector :=
| Nothing
| MatchLabels (m : gmap string string).

(** The objects held by the API server. *)
Record Cluster := {
  deployments : list Deployment;
  pods : list Pod
}.

(** Every call that leaves the process is recorded. *)
Inductive Event :=
| EvLoadClusterConfig (clusterName : string)
| EvNewClient (token api : string)
| EvAskForConfirmation (msg : string)
| EvListDeployments (ns : string) (want : gmap string string)
| EvListPods (sel : Selector)
| EvDeletePod (ns name : string)
| EvRolloutRestart (ns : string) (resources : list string)
| EvRolloutStatus (ns labelSelector : string).

Record State := {
  cluster : Cluster;
  trace : list Event
}.

(** The collaborators.  A fault oracle is asked with the number of calls
    made so far, so the same call may succeed once and fail later. *)
Record World := {
  load_cluster_config : string → ClusterConfig + error;
  new_client : string → string → option error;
  ask_for_confirmation : string → bool;
  list_fault : nat → option error;
  delete_fault : nat → option error;
  restart_complete : nat → option error;
  restart_validate : nat → string → list string → option error;
  restart_run : nat → string → list string → option error;
  status_complete : nat → option error;
  status_validate : nat → string → string → option error;
  status_run : nat → string → string → option error
}.

(** ** The monad: state, trace and panics *)

Inductive outcome (A : Type) :=
| Ret (a : A)
| Panicked (e : error).
Arguments Ret {A} a.
Arguments Panicked {A} e.

Definition M (A : Type) : Type := State → outcome A * State.

Definition ret {A} (a : A) : M A := λ st, (Ret a, st).

Definition bind {A B} (c : M A) (k : A → M B) : M B :=
  λ st, match c st with
        | (Ret a, st') => k a st'
        | (Panicked e, st') => (Panicked e, st')
        end.

Definition panic {A} (e : error) : M A := λ st, (Panicked e, st).

Declare Scope cmd_scope.
Delimit Scope cmd_scope with cmd.
Notation "'let*' x ':=' c 'in' k" := (bind c (λ x, k))
  (at level 10, x name, c at level 100, k at level 200) : cmd_scope.
Notation "'exec' c 'in' k" := (bind c (λ _, k))
  (at level 10, c at level 100, k at level 200) : cmd_scope.
(** [if err := c; err != nil { return err }] followed by [k]. *)
Notation "'check' c 'in' k" :=
  (bind c (λ r, match r with Some err => ret (Some err) | None => k end))
  (at level 10, c at level 100, k at level 200) : cmd_scope.
Local Open Scope cmd_scope.

Definition now : M nat := λ st, (Ret (length (trace st)), st).

Definition emit (ev : Event) : M unit :=
  λ st, (Ret tt, {| cluster := cluster st; trace := trace st ++ [ev] |}).

Definition get_cluster : M Cluster := λ st, (Ret (cluster st), st).

Definition put_cluster (c : Cluster) : M unit :=
  λ st, (Ret tt, {| cluster := c; trace := trace st |}).

(** [for _, x := range l { if err := f(x); err != nil { return err } }] *)
Fixpoint for_each {A} (f : A → M (option error)) (l : list A) : M (option error) :=
  match l with
  | [] => ret None
  | x :: l' => check f x in for_each f l'
  end.

(** ** The cluster client *)

(** client.MatchingLabels: every wanted pair is among the object's labels. *)
Definition matching_labels (want have : gmap string string) : bool :=
  forallb (λ kv, bool_decide (have !! kv.1 = Some kv.2)) (map_to_list want).

Definition selects (sel : Selector) (have : gmap string string) : bool :=
  match sel with
  | Nothing => false
  | MatchLabels m => matching_labels m have
  end.

(** metav1.LabelSelectorAsSelector: a nil selector selects nothing, an empty
    one everything. *)
Definition LabelSelectorAsSelector (ps : option (gmap string string)) : Selector :=
  match ps with
  | None => Nothing
  | Some m => MatchLabels m
  end.

(** The event of deleting a pod. *)
Definition delete_event (p : Pod) : Event :=
  EvDeletePod (pod_Namespace p) (pod_Name p).

Definition same_pod (p q : Pod) : bool :=
  bool_decide (pod_Namespace p = pod_Namespace q) && bool_decide (pod_Name p = pod_Name q).

Definition pod_key (p : Pod) : string * string := (pod_Namespace p, pod_Name p).

(** What the API server answers to the two kinds of list request. *)
Definition matching_deployments (ns : string) (want : gmap string string)
  (ds : list Deployment) : list Deployment :=
  filter (λ d, bool_decide (deploy_Namespace d = ns)
               && matching_labels want (deploy_Labels d) = true) ds.

Definition selected_pods (sel : Selector) (ps : list Pod) : list Pod :=
  filter (λ p, selects sel (pod_Labels p) = true) ps.

Section Program.

Variable w : World.

(** cl.List on deployments with InNamespace and MatchingLabels. *)
Definition cl_List_deployments (ns : string) (want : gmap string string)
  : M (list Deployment + error) :=
  let* t := now in
  exec emit (EvListDeployments ns want) in
  match list_fault w t with
  | Some err => ret (inr err)
  | None =>
      let* c := get_cluster in
      ret (inl (matching_deployments ns want (deployments c)))
  end.

(** cl.List on pods with MatchingLabelsSelector; no namespace is given. *)
Definition cl_List_pods (sel : Selector) : M (list Pod + error) :=
  let* t := now in
  exec emit (EvListPods sel) in
  match list_fault w t with
  | Some err => ret (inr err)
  | None =>
      let* c := get_cluster in
      ret (inl (selected_pods sel (pods c)))
  end.

(** cl.Delete on a pod: the object is removed, or the server reports that
    it does not exist. *)
Definition cl_Delete (pod : Pod) : M (option error) :=
  let* t := now in
  exec emit (delete_event pod) in
  match delete_fault w t with
  | Some err => ret (Some err)
  | None =>
      let* c := get_cluster in
      if existsb (same_pod pod) (pods c)
      then exec put_cluster {| deployments := deployments c;
                               pods := filter (λ q, same_pod pod q = false) (pods c) |} in
           ret None
      else ret (Some ("pod not found: " +:+ pod_Name pod))
  end.

(** ** restart.go *)

Definition checkRolloutStatus (ns : string) : M (option error) :=
  let* t := now in
  match status_complete w t with
  | Some err => panic err
  | None =>
      let LabelSelector := "provider=codeready-toolchain" in
      let Namespace := ns in
      match status_validate w t Namespace LabelSelector with
      | Some err => panic err
      | None =>
          exec emit (EvRolloutStatus Namespace LabelSelector) in
          ret (status_run w t Namespace LabelSelector)
      end
  end.

Definition restartNonOlmDeployments (ns : string) (deployment : Deployment)
  : M (option error) :=
  let* t := now in
  match restart_complete w t with
  | Some err => panic err
  | None =>
      let Namespace := ns in
      let Resources := ["deployment/" +:+ deploy_Name deployment] in
      match restart_validate w t Namespace Resources with
      | Some err => panic err
      | None =>
          exec emit (EvRolloutRestart Namespace Resources) in
          ret (restart_run w t Namespace Resources)
      end
  end.

Definition deletePods (deployment : Deployment) (ns : string) : M (option error) :=
  let selector := LabelSelectorAsSelector (deploy_Selector deployment) in
  let* r := cl_List_pods selector in
  match r with
  | inr err => ret (Some err)
  | inl items =>
      check for_each cl_Delete items in
      check checkRolloutStatus ns in
      ret None
  end.

(** The two lists are pointers in Go: [None] is the nil pointer. *)
Definition getExistingDeployments (ns : string)
  : M (option (list Deployment) * option (list Deployment) * option error) :=
  let* r := cl_List_deployments ns {[ "olm.owner.kind" := "ClusterServiceVersion" ]} in
  match r with
  | inr err => ret (None, None, Some err)
  | inl olmDeployments =>
      let* r := cl_List_deployments ns {[ "provider" := "codeready-toolchain" ]} in
      match r with
      | inr err => ret (None, None, Some err)
      | inl nonOlmDeployments =>
          ret (Some olmDeployments, Some nonOlmDeployments, None)
      end
  end.

Definition restartDeployment (ns : string) : M (option error) :=
  let* r := getExistingDeployments ns in
  let '(olmDeploymentList, nonOlmDeploymentlist, err) := r in
  match err with
  | Some e => ret (Some e)
  | None =>
      match olmDeploymentList with
      | None => ret (Some ("OLM based deploymont not found in " +:+ ns))
      | Some olmItems =>
          check for_each (λ olmDeployment, deletePods olmDeployment ns) olmItems in
          match nonOlmDeploymentlist with
          | None => ret (Some ("non-OLM based deploymont not found in " +:+ ns))
          | Some nonOlmItems =>
              check for_each (λ nonOlmDeployment,
                                check restartNonOlmDeployments ns nonOlmDeployment in
                                check checkRolloutStatus ns in
                                ret None) nonOlmItems in
              ret None
          end
      end
  end.

Definition LoadClusterConfig (clusterName : string) : M (ClusterConfig + error) :=
  exec emit (EvLoadClusterConfig clusterName) in
  ret (load_cluster_config w clusterName).

Definition NewClient (token api : string) : M (option error) :=
  exec emit (EvNewClient token api) in
  ret (new_client w token api).

Definition AskForConfirmation (msg : string) : M bool :=
  exec emit (EvAskForConfirmation msg) in
  ret (ask_for_confirmation w msg).

(** ioutils.WithMessagef("restart the '%s' operator in namespace '%s'", ...) *)
Definition restart_message (operator ns : string) : string :=
  "restart the '" +:+ operator +:+ "' operator in namespace '" +:+ ns +:+ "'".

Definition restart (clusterName : string) (operatorType : list string)
  : M (option error) :=
  let* r := LoadClusterConfig clusterName in
  match r with
  | inr err => ret (Some err)
  | inl cfg =>
      check NewClient (Token cfg) (ServerAPI cfg) in
      match operatorType with
      | [] => ret (Some "please mention one of the following operator names to restart: host | member-1 | member-2")
      | operator :: _ =>
          let* ok := AskForConfirmation (restart_message operator (OperatorNamespace cfg)) in
          if negb ok then ret None
          else restartDeployment (OperatorNamespace cfg)
      end
  end.

End Program.

(** A run of the command on a cluster, from an empty trace. *)
Definition initial (c : Cluster) : State := {| cluster := c; trace := [] |}.

Definition run_restart (w : World) (c : Cluster) (clusterName : string)
  (operatorType : list string) : outcome (option error) * State :=
  restart w clusterName operatorType (initial c).

(** ** A sample cluster *)

Definition olm_label : gmap string string := {[ "olm.owner.kind" := "ClusterServiceVersion" ]}.
Definition provider_label : gmap string string := {[ "provider" := "codeready-toolchain" ]}.

Definition host_operator : Deployment :=
  {| deploy_Name := "host-operator";
     deploy_Namespace := "host-operator-ns";
     deploy_Labels := olm_label;
     deploy_Selector := Some {[ "name" := "host-operator" ]} |}.

Definition registration_service : Deployment :=
  {| deploy_Name := "registration-service";
     deploy_Namespace := "host-operator-ns";
     deploy_Labels := provider_label;
     deploy_Selector := Some {[ "name" := "registration-service" ]} |}.

Definition host_pod (name : string) : Pod :=
  {| pod_Name := name;
     pod_Namespace := "host-operator-ns";
     pod_Labels := {[ "name" := "host-operator" ]} |}.

Definition host_cluster : Cluster :=
  {| deployments := [host_operator; registration_service];
     pods := [host_pod "host-operator-1"; host_pod "host-operator-2";
              host_pod "host-operator-3"] |}.

Definition host_config : ClusterConfig :=
  {| Token := "cool-token";
     ServerAPI := "https://cool-server.com";
     OperatorNamespace := "host-operator-ns" |}.

(** A world in which every call succeeds and the operator answers [answer]. *)
Definition calm_world (answer : bool) : World :=
  {| load_cluster_config := λ _, inl host_config;
     new_client := λ _ _, None;
     ask_for_confirmation := λ _, answer;
     list_fault := λ _, None;
     delete_fault := λ _, None;
     restart_complete := λ _, None;
     restart_validate := λ _ _ _, None;
     restart_run := λ _ _ _, None;
     status_complete := λ _, None;
     status_validate := λ _ _ _, None;
     status_run := λ _ _ _, None |}.

(** A deployment that carries both labels. *)
Definition member_operator : Deployment :=
  {| deploy_Name := "member-operator";
     deploy_Namespace := "member-operator-ns";
     deploy_Labels := {[ "olm.owner.kind" := "ClusterServiceVersion";
                         "provider" := "codeready-toolchain" ]};
     deploy_Selector := Some {[ "name" := "member-operator" ]} |}.

Definition member_cluster : Cluster :=
  {| deployments := [member_operator]; pods := [] |}.

(** A namespace without any OLM deployment, and one without any deployment
    carrying the provider label. *)
Definition no_olm_cluster : Cluster :=
  {| deployments := [registration_service]; pods := [] |}.

Definition no_provider_cluster : Cluster :=
  {| deployments := [host_operator];
     pods := [host_pod "host-operator-1"] |}.

(** A world in which the API server refuses the deletion made as the
    [t]-th call. *)
Definition delete_fails_at (t : nat) : World :=
  {| load_cluster_config := λ _, inl host_config;
     new_client := λ _ _, None;
     ask_for_confirmation := λ _, true;
     list_fault := λ _, None;
     delete_fault := λ t', if Nat.eqb t' t then Some "pods is forbidden" else None;
     restart_complete := λ _, None;
     restart_validate := λ _ _ _, None;
     restart_run := λ _ _ _, None;
     status_complete := λ _, None;
     status_validate := λ _ _ _, None;
     status_run := λ _ _ _, None |}.

(** A world in which kubectl rejects the rollout status request. *)
Definition broken_status_world : World :=
  {| load_cluster_config := λ _, inl host_config;
     new_client := λ _ _, None;
     ask_for_confirmation := λ _, true;
     list_fault := λ _, None;
     delete_fault := λ _, None;
     restart_complete := λ _, None;
     restart_validate := λ _ _ _, None;
     restart_run := λ _ _ _, None;
     status_complete := λ _, None;
     status_validate := λ _ _ _, Some "required resource not specified";
     status_run := λ _ _ _, None |}.

(** No call to the cluster or to kubectl fails. *)
Record calm (w : World) : Prop := {
  calm_list : ∀ t, list_fault w t = None;
  calm_delete : ∀ t, delete_fault w t = None;
  calm_restart_complete : ∀ t, restart_complete w t = None;
  calm_restart_validate : ∀ t ns rs, restart_validate w t ns rs = None;
  calm_restart_run : ∀ t ns rs, restart_run w t ns rs = None;
  calm_status_complete : ∀ t, status_complete w t = None;
  calm_status_validate : ∀ t ns sel, status_validate w t ns sel = None;
  calm_status_run : ∀ t ns sel, status_run w t ns sel = None
}.

(** ** Kinds of events *)

(** A mutation is a call that changes the cluster: deleting a pod or
    patching a deployment through a rollout restart. *)
Definition is_mutation (ev : Event) : bool :=
  match ev with
  | EvDeletePod _ _ | EvRolloutRestart _ _ => true
  | _ => false
  end.

(** ** Specifications of computations *)

(** [hoare P c Q]: from a state satisfying [P], the outcome and final state
    of [c] satisfy [Q]. *)
Definition hoare {A} (P : State → Prop) (c : M A) (Q : outcome A → State → Prop) : Prop :=
  ∀ st, P st → Q (c st).1 (c st).2.

(** [c] keeps every event of the trace within [P]. *)
Definition preserves {A} (P : Event → Prop) (c : M A) : Prop :=
  hoare (λ st, Forall P (trace st)) c (λ _ st, Forall P (trace st)).

(** ** The order of calls as a state machine *)

Inductive Phase :=
| Idle          (* nothing asked yet *)
| Confirmed     (* the operator approved *)
| Discovering   (* the OLM deployments are listed *)
| Recycling     (* ready to recycle the next OLM deployment *)
| Deleting      (* the pods of an OLM deployment are listed *)
| Triggered     (* a rollout restart was triggered *)
| Restarting.   (* ready to restart the next non-OLM deployment *)

Definition step (p : Phase) (ev : Event) : option Phase :=
  match p, ev with
  | Idle, EvLoadClusterConfig _ => Some Idle
  | Idle, EvNewClient _ _ => Some Idle
  | Idle, EvAskForConfirmation _ => Some Confirmed
  | Confirmed, EvListDeployments _ _ => Some Discovering
  | Discovering, EvListDeployments _ _ => Some Recycling
  | Recycling, EvListPods _ => Some Deleting
  | Deleting, EvDeletePod _ _ => Some Deleting
  | Deleting, EvRolloutStatus _ _ => Some Recycling
  | Recycling, EvRolloutRestart _ _ => Some Triggered
  | Restarting, EvRolloutRestart _ _ => Some Triggered
  | Triggered, EvRolloutStatus _ _ => Some Restarting
  | _, _ => None
  end.

Fixpoint steps (p : Phase) (tr : list Event) : option Phase :=
  match tr with
  | [] => Some p
  | ev :: tr' =>
      match step p ev with
      | Some q => steps q tr'
      | None => None
      end
  end.

Definition at_phase (p : Phase) (st : State) : Prop := steps Idle (trace st) = Some p.

Definition accepted (st : State) : Prop := is_Some (steps Idle (trace st)).

(** [c] takes the machine from [p] to [q] when it returns, and leaves it in
    [p] when it panics. *)
Definition moves {A} (p q : Phase) (c : M A) : Prop :=
  hoare (at_phase p) c
        (λ r st, match r with Ret _ => at_phase q st | Panicked _ => at_phase p st end).

(** [c] keeps the trace within the machine, and ends in [q] when it returns
    nil. *)
Definition cycle (p q : Phase) (c : M (option error)) : Prop :=
  hoare (at_phase p) c (λ r st, accepted st ∧ (r = Ret None → at_phase q st)).

(** Two states agree when they hold the same cluster and as many calls were
    made in both. *)
Definition agree (st1 st2 : State) : Prop :=
  cluster st1 = cluster st2 ∧ length (trace st1) = length (trace st2).

(** [c] does not look at the calls made before it, only at their number:
    from states that agree it returns the same result, leaves the same
    cluster and makes the same calls. *)
Definition oblivious {A} (c : M A) : Prop :=
  ∀ st1 st2, agree st1 st2 →
    ∃ r cl l, c st1 = (r, {| cluster := cl; trace := trace st1 ++ l |})
              ∧ c st2 = (r, {| cluster := cl; trace := trace st2 ++ l |}).

(** What a call is, as far as the order of calls goes. *)
Inductive Kind := KSetup | KDiscover | KListPods | KDelete | KWait | KRestart.

Definition kind (ev : Event) : Kind :=
  match ev with
  | EvLoadClusterConfig _ | EvNewClient _ _ | EvAskForConfirmation _ => KSetup
  | EvListDeployments _ _ => KDiscover
  | EvListPods _ => KListPods
  | EvDeletePod _ _ => KDelete
  | EvRolloutStatus _ _ => KWait
  | EvRolloutRestart _ _ => KRestart
  end.

(** [may_follow k1 k2]: a call of kind [k2] may come right after one of kind
    [k1].  Pods are deleted only right after they were listed or after
    another deletion; listing or deleting pods is followed by a deletion or by
    the wait; a restart is followed by the wait; the next deployment (of
    either class) is only taken up after discovery or after a wait. *)
Definition may_follow (k1 k2 : Kind) : bool :=
  match k1, k2 with
  | KSetup, (KSetup | KDiscover) => true
  | KDiscover, (KDiscover | KListPods | KRestart) => true
  | KListPods, (KDelete | KWait) => true
  | KDelete, (KDelete | KWait) => true
  | KWait, (KListPods | KRestart) => true
  | KRestart, KWait => true
  | _, _ => false
  end.

(** ** Worlds with a single fault *)

(** [fails_at t e] is the fault oracle that answers [e] to the call made
    when [t] calls were made before, and nil otherwise. *)
Definition fails_at (t : nat) (e : error) : nat → option error :=
  λ t', if Nat.eqb t' t then Some e else None.

Definition never_fails : nat → option error := λ _, None.

(** A world over the host configuration in which the operator approves and
    the four kinds of cluster call fail as the given oracles say. *)
Definition faulty_world (list_f delete_f restart_f status_f : nat → option error) : World :=
  {| load_cluster_config := λ _, inl host_config;
     new_client := λ _ _, None;
     ask_for_confirmation := λ _, true;
     list_fault := list_f;
     delete_fault := delete_f;
     restart_complete := λ _, None;
     restart_validate := λ _ _ _, None;
     restart_run := λ t _ _, restart_f t;
     status_complete := λ _, None;
     status_validate := λ _ _ _, None;
     status_run := λ t _ _, status_f t |}.

(** A world in which the cluster configuration cannot be loaded. *)
Definition no_config_world : World :=
  {| load_cluster_config := λ _, inr "the provided cluster-name 'host' is not present in your ksctl.yaml file";
     new_client := λ _ _, None;
     ask_for_confirmation := λ _, true;
     list_fault := never_fails;
     delete_fault := never_fails;
     restart_complete := never_fails;
     restart_validate := λ _ _ _, None;
     restart_run := λ _ _ _, None;
     status_complete := never_fails;
     status_validate := λ _ _ _, None;
     status_run := λ _ _ _, None |}.

(** Where a panic can come from: kubectl's [Complete] or [Validate], for the
    rollout restart or for the rollout status. *)
Definition panic_source (w : World) (e : error) : Prop :=
  ∃ t, restart_complete w t = Some e
       ∨ (∃ ns rs, restart_validate w t ns rs = Some e)
       ∨ status_complete w t = Some e
       ∨ (∃ ns sel, status_validate w t ns sel = Some e).

(** [c] panics only with an error of [panic_source]. *)
Definition panics_from_kubectl (w : World) {A} (c : M A) : Prop :=
  hoare (λ _, True) c (λ r _, ∀ e, r = Panicked e → panic_source w e).

(** The rollout restart of a deployment, as an event. *)
Definition restart_event (ns : string) (d : Deployment) : Event :=
  EvRolloutRestart ns ["deployment/" +:+ deploy_Name d].




(** The list request for the pods of a deployment, as an event. *)
Definition list_pods_event (d : Deployment) : Event :=
  EvListPods (LabelSelectorAsSelector (deploy_Selector d)).

(** A cluster with a pod of another namespace that bears the labels of the
    host operator. *)
Definition stray_pod : Pod :=
  {| pod_Name := "host-operator-0";
     pod_Namespace := "sandbox";
     pod_Labels := {[ "name" := "host-operator" ]} |}.

Definition shared_cluster : Cluster :=
  {| deployments := [host_operator; registration_service];
     pods := [host_pod "host-operator-1"; stray_pod] |}.

(** The calls that name a namespace name [ns]. *)
Definition in_namespace (ns : string) (ev : Event) : Prop :=
  match ev with
  | EvListDeployments ns' _ | EvRolloutRestart ns' _ | EvRolloutStatus ns' _ => ns' = ns
  | _ => True
  end.

(** [EvDeletePod] events are deletions of pods of [c] that the selector of
    an OLM deployment of the namespace [ns] of [c] selects. *)
Definition deletes_selected (c : Cluster) (ns : string) (ev : Event) : Prop :=
  ∀ ns' name, ev = EvDeletePod ns' name →
    ∃ d p, d ∈ matching_deployments ns olm_label (deployments c)
           ∧ p ∈ selected_pods (LabelSelectorAsSelector (deploy_Selector d)) (pods c)
           ∧ ns' = pod_Namespace p ∧ name = pod_Name p.

(** The state stays within the cluster [c]: the deployments are those of
    [c], the pods are pods of [c], and all deletions made so far were of pods
    selected by an OLM deployment of the namespace [ns]. *)
Definition within (c : Cluster) (ns : string) (st : State) : Prop :=
  deployments (cluster st) = deployments c
  ∧ (∀ q, q ∈ pods (cluster st) → q ∈ pods c)
  ∧ Forall (deletes_selected c ns) (trace st).

(** * Properties *)

(** ** Label matching *)

Lemma matching_labels_singleton (k v : string) (have : gmap string string) :
  matching_labels {[ k := v ]} have = true ↔ have !! k = Some v.
Proof.
  unfold matching_labels. rewrite map_to_list_singleton. simpl.
  rewrite andb_true_r. apply bool_decide_eq_true.
Qed.

Lemma matching_labels_spec (want have : gmap string string) :
  matching_labels want have = true ↔ want ⊆ have.
Proof.
  unfold matching_labels. rewrite forallb_forall, map_subseteq_spec. split.
  - intros H k v Hk. apply elem_of_map_to_list in Hk.
    apply list_elem_of_In, H in Hk. by apply bool_decide_eq_true in Hk.
  - intros H [k v] Hin. apply list_elem_of_In, elem_of_map_to_list in Hin.
    apply bool_decide_eq_true. simpl. by apply H.
Qed.

(** ** Discovery *)

Section Discovery.

Variable w : World.

Lemma getExistingDeployments_inv ns st olm nonolm st' :
  getExistingDeployments w ns st = (Ret (Some olm, Some nonolm, None), st') →
  olm = matching_deployments ns olm_label (deployments (cluster st)) ∧
  nonolm = matching_deployments ns provider_label (deployments (cluster st)).
Proof.
  unfold getExistingDeployments, cl_List_deployments, bind, now, emit, get_cluster, ret.
  simpl. destruct (list_fault w (length (trace st))); [discriminate |].
  destruct (list_fault w _); [discriminate |].
  simpl. intros [= <- <- _]. done.
Qed.

(** The nil pointers that [restartDeployment] tests for are only ever
    returned together with an error. *)
Lemma getExistingDeployments_nil ns st olm nonolm st' :
  getExistingDeployments w ns st = (Ret (olm, nonolm, None), st') →
  is_Some olm ∧ is_Some nonolm.
Proof.
  unfold getExistingDeployments, cl_List_deployments, bind, now, emit, get_cluster, ret.
  simpl. destruct (list_fault w (length (trace st))); [discriminate |].
  destruct (list_fault w _); [discriminate |].
  simpl. intros [= <- <- _]. eauto.
Qed.

Lemma listed_deployment ns (want : gmap string string) (ds : list Deployment) d :
  d ∈ matching_deployments ns want ds
  ↔ d ∈ ds ∧ deploy_Namespace d = ns ∧ want ⊆ deploy_Labels d.
Proof.
  unfold matching_deployments. rewrite list_elem_of_filter, andb_true_iff, bool_decide_eq_true, matching_labels_spec.
  tauto.
Qed.

End Discovery.

(** C2, as stated, fails: a deployment labelled both as OLM-owned and with
    the provider label is returned in both lists. *)
Lemma discovery_lists_overlap :
  ¬ (∀ (w : World) ns st olm nonolm st',
        getExistingDeployments w ns st = (Ret (Some olm, Some nonolm, None), st') →
        ∀ d, ¬ (d ∈ olm ∧ d ∈ nonolm)).
Proof.
  intros H.
  eapply (H (calm_world true) "member-operator-ns" (initial member_cluster)
            [member_operator] [member_operator] _ _ member_operator).
  split; apply list_elem_of_here.
  Unshelve.
  - exact {| cluster := member_cluster;
             trace := [EvListDeployments "member-operator-ns" olm_label;
                       EvListDeployments "member-operator-ns" provider_label] |}.
  - vm_compute. reflexivity.
Qed.

(** C2 (amended): discovery is two independent label queries.  A deployment
    of the namespace is in the OLM list exactly when it carries
    [olm.owner.kind=ClusterServiceVersion], in the non-OLM list exactly when
    it carries [provider=codeready-toolchain], hence in both lists exactly
    when it carries both labels. *)
Theorem discovery_by_label (w : World) ns st olm nonolm st' :
  getExistingDeployments w ns st = (Ret (Some olm, Some nonolm, None), st') →
  ∀ d,
    (d ∈ olm ↔ d ∈ deployments (cluster st) ∧ deploy_Namespace d = ns
               ∧ deploy_Labels d !! "olm.owner.kind" = Some "ClusterServiceVersion") ∧
    (d ∈ nonolm ↔ d ∈ deployments (cluster st) ∧ deploy_Namespace d = ns
                  ∧ deploy_Labels d !! "provider" = Some "codeready-toolchain") ∧
    (d ∈ olm ∧ d ∈ nonolm ↔
       d ∈ deployments (cluster st) ∧ deploy_Namespace d = ns
       ∧ deploy_Labels d !! "olm.owner.kind" = Some "ClusterServiceVersion"
       ∧ deploy_Labels d !! "provider" = Some "codeready-toolchain").
Proof.
  intros [-> ->]%getExistingDeployments_inv d. unfold matching_deployments.
  rewrite !list_elem_of_filter, !andb_true_iff, !bool_decide_eq_true.
  unfold olm_label, provider_label. rewrite !matching_labels_singleton.
  tauto.
Qed.

Lemma discovery_by_label_witness :
  host_operator ∈ [host_operator] ↔
    host_operator ∈ deployments host_cluster
    ∧ deploy_Namespace host_operator = "host-operator-ns"
    ∧ deploy_Labels host_operator !! "olm.owner.kind" = Some "ClusterServiceVersion".
Proof.
  refine (proj1 (discovery_by_label (calm_world true) "host-operator-ns"
                   (initial host_cluster) [host_operator] [registration_service]
                   {| cluster := host_cluster;
                      trace := [EvListDeployments "host-operator-ns" olm_label;
                                EvListDeployments "host-operator-ns" provider_label] |}
                   _ host_operator)).
  vm_compute. reflexivity.
Defined.

(** ** The confirmation gate and the argument check *)

(** Refutes [ev ∈ l] for an explicit list [l] of other events. *)
Ltac not_in_trace H :=
  repeat (apply elem_of_cons in H as [H | H]; [discriminate |]);
  apply elem_of_nil in H.

Lemma restart_config_error w c clusterName ops err :
  load_cluster_config w clusterName = inr err →
  run_restart w c clusterName ops =
    (Ret (Some err), {| cluster := c; trace := [EvLoadClusterConfig clusterName] |}).
Proof.
  intros H. unfold run_restart, restart, LoadClusterConfig, bind, emit, ret. simpl.
  by rewrite H.
Qed.

Lemma restart_client_error w c clusterName ops cfg err :
  load_cluster_config w clusterName = inl cfg →
  new_client w (Token cfg) (ServerAPI cfg) = Some err →
  run_restart w c clusterName ops =
    (Ret (Some err),
     {| cluster := c;
        trace := [EvLoadClusterConfig clusterName;
                  EvNewClient (Token cfg) (ServerAPI cfg)] |}).
Proof.
  intros H1 H2.
  unfold run_restart, restart, LoadClusterConfig, NewClient, bind, emit, ret. simpl.
  rewrite H1. simpl. by rewrite H2.
Qed.

Lemma restart_confirmed w c clusterName cfg operator rest :
  load_cluster_config w clusterName = inl cfg →
  new_client w (Token cfg) (ServerAPI cfg) = None →
  run_restart w c clusterName (operator :: rest) =
    let prompt := restart_message operator (OperatorNamespace cfg) in
    let st := {| cluster := c;
                 trace := [EvLoadClusterConfig clusterName;
                           EvNewClient (Token cfg) (ServerAPI cfg);
                           EvAskForConfirmation prompt] |} in
    if ask_for_confirmation w prompt
    then restartDeployment w (OperatorNamespace cfg) st
    else (Ret None, st).
Proof.
  intros H1 H2.
  unfold run_restart, restart, LoadClusterConfig, NewClient, AskForConfirmation,
    bind, emit, ret.
  simpl. rewrite H1. simpl. rewrite H2. simpl.
  by destruct (ask_for_confirmation w _).
Qed.

Lemma restart_no_operator w c clusterName cfg :
  load_cluster_config w clusterName = inl cfg →
  new_client w (Token cfg) (ServerAPI cfg) = None →
  run_restart w c clusterName [] =
    (Ret (Some "please mention one of the following operator names to restart: host | member-1 | member-2"),
     {| cluster := c;
        trace := [EvLoadClusterConfig clusterName;
                  EvNewClient (Token cfg) (ServerAPI cfg)] |}).
Proof.
  intros H1 H2.
  unfold run_restart, restart, LoadClusterConfig, NewClient, bind, emit, ret. simpl.
  rewrite H1. simpl. by rewrite H2.
Qed.

(** C9: with no operator type given, and once the cluster configuration and
    the client are there, [restart] returns the error that lists the
    operator names; the cluster is untouched and the only calls made are the
    two that set the command up: nothing was asked, deleted or patched. *)
Theorem restart_without_operator w c clusterName cfg :
  load_cluster_config w clusterName = inl cfg →
  new_client w (Token cfg) (ServerAPI cfg) = None →
  (run_restart w c clusterName []).1 =
    Ret (Some "please mention one of the following operator names to restart: host | member-1 | member-2")
  ∧ cluster (run_restart w c clusterName []).2 = c
  ∧ trace (run_restart w c clusterName []).2 =
      [EvLoadClusterConfig clusterName; EvNewClient (Token cfg) (ServerAPI cfg)].
Proof.
  intros Hcfg Hcl. rewrite (restart_no_operator _ _ _ _ Hcfg Hcl). simpl. done.
Qed.

Lemma restart_without_operator_witness :
  (run_restart (calm_world true) host_cluster "host" []).1 =
    Ret (Some "please mention one of the following operator names to restart: host | member-1 | member-2")
  ∧ cluster (run_restart (calm_world true) host_cluster "host" []).2 = host_cluster
  ∧ trace (run_restart (calm_world true) host_cluster "host" []).2 =
      [EvLoadClusterConfig "host"; EvNewClient "cool-token" "https://cool-server.com"].
Proof.
  apply (restart_without_operator (calm_world true) host_cluster "host" host_config);
    reflexivity.
Defined.


(** ** Rules for [hoare] *)

Section Rules.

Context {A B : Type}.

Lemma hoare_ret (P : State → Prop) (a : A) (Q : outcome A → State → Prop) :
  (∀ st, P st → Q (Ret a) st) → hoare P (ret a) Q.
Proof. intros H st Hst. by apply H. Qed.

Lemma hoare_panic (P : State → Prop) (e : error) (Q : outcome A → State → Prop) :
  (∀ st, P st → Q (Panicked e) st) → hoare P (panic e) Q.
Proof. intros H st Hst. by apply H. Qed.

Lemma hoare_bind (P : State → Prop) (c : M A) (k : A → M B)
    (R : outcome A → State → Prop) (Q : outcome B → State → Prop) :
  hoare P c R →
  (∀ a, hoare (R (Ret a)) (k a) Q) →
  (∀ e st, R (Panicked e) st → Q (Panicked e) st) →
  hoare P (bind c k) Q.
Proof.
  intros Hc Hk Hp st Hst. specialize (Hc st Hst). unfold bind.
  destruct (c st) as [[a | e] st1]; simpl in *.
  - by apply Hk.
  - by apply Hp.
Qed.

Lemma hoare_conseq (P P' : State → Prop) (c : M A) (Q Q' : outcome A → State → Prop) :
  hoare P' c Q' →
  (∀ st, P st → P' st) →
  (∀ r st, Q' r st → Q r st) →
  hoare P c Q.
Proof. intros Hc HP HQ st Hst. apply HQ, Hc, HP, Hst. Qed.

End Rules.

(** The loop rule: [I] holds as long as the body returns nil; the first error
    or panic leaves the loop with [Q]. *)
Lemma hoare_for_each {A} (I : State → Prop) (Q : outcome (option error) → State → Prop)
    (f : A → M (option error)) (l : list A) :
  (∀ x, x ∈ l →
        hoare I (f x) (λ r st, match r with Ret None => I st | _ => Q r st end)) →
  (∀ st, I st → Q (Ret None) st) →
  hoare I (for_each f l) Q.
Proof.
  intros Hf Hend. induction l as [| x l IH]; simpl.
  - by apply hoare_ret.
  - eapply hoare_bind.
    + apply Hf. left.
    + intros [err |].
      * apply hoare_ret. auto.
      * apply IH. intros y Hy. apply Hf. by right.
    + auto.
Qed.

(** ** Events are only ever added *)

Section Preservation.

Variable w : World.
Variable P : Event → Prop.

Lemma preserves_ret {A} (a : A) : preserves P (ret a).
Proof. by apply hoare_ret. Qed.

Lemma preserves_bind {A B} (c : M A) (k : A → M B) :
  preserves P c → (∀ a, preserves P (k a)) → preserves P (bind c k).
Proof. intros Hc Hk. eapply hoare_bind; [apply Hc | apply Hk | auto]. Qed.

Lemma preserves_emit ev : P ev → preserves P (emit ev).
Proof. intros Hev st Hst. simpl. apply Forall_app. auto. Qed.

Lemma preserves_for_each {A} (f : A → M (option error)) l :
  (∀ x, preserves P (f x)) → preserves P (for_each f l).
Proof.
  intros Hf. apply hoare_for_each; [| auto].
  intros x _. eapply hoare_conseq; [apply Hf | auto |].
  intros [[e |] | e] st; auto.
Qed.

Lemma preserves_cl_List_deployments ns want :
  P (EvListDeployments ns want) → preserves P (cl_List_deployments w ns want).
Proof.
  intros Hev st Hst. unfold cl_List_deployments, bind, now, emit, get_cluster, ret.
  simpl. destruct (list_fault w _); simpl; apply Forall_app; auto.
Qed.

Lemma preserves_cl_List_pods sel :
  P (EvListPods sel) → preserves P (cl_List_pods w sel).
Proof.
  intros Hev st Hst. unfold cl_List_pods, bind, now, emit, get_cluster, ret.
  simpl. destruct (list_fault w _); simpl; apply Forall_app; auto.
Qed.

Lemma preserves_cl_Delete pod :
  P (EvDeletePod (pod_Namespace pod) (pod_Name pod)) → preserves P (cl_Delete w pod).
Proof.
  intros Hev st Hst.
  unfold cl_Delete, bind, now, emit, get_cluster, put_cluster, ret.
  simpl. destruct (delete_fault w _); simpl; [by apply Forall_app; auto |].
  destruct (existsb _ _); simpl; apply Forall_app; auto.
Qed.

Lemma preserves_checkRolloutStatus ns :
  P (EvRolloutStatus ns "provider=codeready-toolchain") →
  preserves P (checkRolloutStatus w ns).
Proof.
  intros Hev st Hst. unfold checkRolloutStatus, bind, now, emit, panic, ret.
  simpl. destruct (status_complete w _); simpl; [done |].
  destruct (status_validate w _ _ _); simpl; [done |].
  apply Forall_app; auto.
Qed.

Lemma preserves_restartNonOlmDeployments ns d :
  P (EvRolloutRestart ns ["deployment/" +:+ deploy_Name d]) →
  preserves P (restartNonOlmDeployments w ns d).
Proof.
  intros Hev st Hst. unfold restartNonOlmDeployments, bind, now, emit, panic, ret.
  simpl. destruct (restart_complete w _); simpl; [done |].
  destruct (restart_validate w _ _ _); simpl; [done |].
  apply Forall_app; auto.
Qed.

Hypothesis P_list_deployments : ∀ ns want, P (EvListDeployments ns want).
Hypothesis P_list_pods : ∀ sel, P (EvListPods sel).
Hypothesis P_delete : ∀ ns name, P (EvDeletePod ns name).
Hypothesis P_restart : ∀ ns r, P (EvRolloutRestart ns r).
Hypothesis P_status : ∀ ns, P (EvRolloutStatus ns "provider=codeready-toolchain").

Lemma preserves_deletePods d ns : preserves P (deletePods w d ns).
Proof.
  unfold deletePods. apply preserves_bind; [by apply preserves_cl_List_pods |].
  intros [items | err]; [| apply preserves_ret].
  apply preserves_bind.
  { apply preserves_for_each. intros. by apply preserves_cl_Delete. }
  intros [err |]; [apply preserves_ret |].
  apply preserves_bind; [by apply preserves_checkRolloutStatus |].
  intros [err |]; apply preserves_ret.
Qed.

Lemma preserves_getExistingDeployments ns : preserves P (getExistingDeployments w ns).
Proof.
  unfold getExistingDeployments.
  apply preserves_bind; [by apply preserves_cl_List_deployments |].
  intros [olm | err]; [| apply preserves_ret].
  apply preserves_bind; [by apply preserves_cl_List_deployments |].
  intros [nonolm | err]; apply preserves_ret.
Qed.

Lemma preserves_restartDeployment ns : preserves P (restartDeployment w ns).
Proof.
  unfold restartDeployment.
  apply preserves_bind; [apply preserves_getExistingDeployments |].
  intros [[olm nonolm] [err |]]; [apply preserves_ret |].
  destruct olm as [olmItems |]; [| apply preserves_ret].
  apply preserves_bind.
  { apply preserves_for_each. intros. apply preserves_deletePods. }
  intros [err |]; [apply preserves_ret |].
  destruct nonolm as [nonOlmItems |]; [| apply preserves_ret].
  apply preserves_bind.
  { apply preserves_for_each. intros d.
    apply preserves_bind; [by apply preserves_restartNonOlmDeployments |].
    intros [err |]; [apply preserves_ret |].
    apply preserves_bind; [by apply preserves_checkRolloutStatus |].
    intros [err |]; apply preserves_ret. }
  intros [err |]; apply preserves_ret.
Qed.

End Preservation.

Lemma preserves_restart w (P : Event → Prop) clusterName ops :
  (∀ ev, kind ev ≠ KWait → P ev) →
  (∀ ns, P (EvRolloutStatus ns "provider=codeready-toolchain")) →
  preserves P (restart w clusterName ops).
Proof.
  intros HP Hwait. unfold restart, LoadClusterConfig, NewClient, AskForConfirmation.
  apply preserves_bind.
  { apply preserves_bind; [by apply preserves_emit, HP | intros; apply preserves_ret]. }
  intros [cfg | err]; [| apply preserves_ret].
  apply preserves_bind.
  { apply preserves_bind; [by apply preserves_emit, HP | intros; apply preserves_ret]. }
  intros [err |]; [apply preserves_ret |].
  destruct ops as [| operator rest]; [apply preserves_ret |].
  apply preserves_bind.
  { apply preserves_bind; [by apply preserves_emit, HP | intros; apply preserves_ret]. }
  intros [|]; simpl; [| apply preserves_ret].
  apply preserves_restartDeployment; intros; try apply Hwait; by apply HP.
Qed.

(** C3: whenever the operator was asked and did not approve, [restart]
    returns nil, leaves the cluster as it was, and its trace holds no pod
    deletion and no rollout restart. *)
Theorem restart_declined w c clusterName ops msg :
  EvAskForConfirmation msg ∈ trace (run_restart w c clusterName ops).2 →
  ask_for_confirmation w msg = false →
  (run_restart w c clusterName ops).1 = Ret None
  ∧ cluster (run_restart w c clusterName ops).2 = c
  ∧ Forall (λ ev, is_mutation ev = false) (trace (run_restart w c clusterName ops).2).
Proof.
  destruct (load_cluster_config w clusterName) as [cfg | err] eqn:Hcfg.
  2: { rewrite (restart_config_error _ _ _ _ _ Hcfg). simpl.
       intros Hin. by not_in_trace Hin. }
  destruct (new_client w (Token cfg) (ServerAPI cfg)) as [err |] eqn:Hcl.
  { rewrite (restart_client_error _ _ _ _ _ _ Hcfg Hcl). simpl.
    intros Hin. by not_in_trace Hin. }
  destruct ops as [| operator rest].
  { rewrite (restart_no_operator _ _ _ _ Hcfg Hcl). simpl.
    intros Hin. by not_in_trace Hin. }
  rewrite (restart_confirmed _ _ _ _ _ _ Hcfg Hcl). cbv zeta.
  destruct (ask_for_confirmation w (restart_message operator (OperatorNamespace cfg)))
    eqn:Hask.
  - (* approved: the only prompt in the trace is the one that was approved *)
    intros Hin Hno. exfalso.
    pose (P := λ ev, ∀ m, ev = EvAskForConfirmation m →
                          m = restart_message operator (OperatorNamespace cfg)).
    assert (HP : Forall P (trace (restartDeployment w (OperatorNamespace cfg)
                   {| cluster := c;
                      trace := [EvLoadClusterConfig clusterName;
                                EvNewClient (Token cfg) (ServerAPI cfg);
                                EvAskForConfirmation
                                  (restart_message operator (OperatorNamespace cfg))] |}).2)).
    { apply (preserves_restartDeployment w P); try (intros; intros m; discriminate).
      simpl. repeat constructor; intros m; try discriminate. by intros [= <-]. }
    rewrite Forall_forall in HP. specialize (HP _ Hin msg eq_refl). congruence.
  - intros _ _. simpl. repeat split. repeat constructor.
Qed.

Lemma restart_declined_witness :
  (run_restart (calm_world false) host_cluster "host" ["host"]).1 = Ret None
  ∧ cluster (run_restart (calm_world false) host_cluster "host" ["host"]).2 = host_cluster
  ∧ Forall (λ ev, is_mutation ev = false)
           (trace (run_restart (calm_world false) host_cluster "host" ["host"]).2).
Proof.
  apply (restart_declined (calm_world false) host_cluster "host" ["host"]
           (restart_message "host" "host-operator-ns")).
  - vm_compute. do 2 right. left.
  - reflexivity.
Defined.

(** C8: in every run, each wait on the rollout status is made with the
    label selector [provider=codeready-toolchain]; the deployment that was
    just recycled or restarted plays no part in it. *)
Theorem rollout_status_selector w c clusterName ops :
  Forall (λ ev, ∀ ns sel, ev = EvRolloutStatus ns sel →
                          sel = "provider=codeready-toolchain")
         (trace (run_restart w c clusterName ops).2).
Proof.
  apply (preserves_restart w _ clusterName ops).
  - intros ev Hk ns sel ->. by destruct Hk.
  - by intros ns ns' sel [= _ <-].
  - constructor.
Qed.

(** ** Panics *)

(** A panic is never turned into a returned error: it ends every enclosing
    computation. *)
Lemma bind_panicked {A B} (c : M A) (k : A → M B) st e st' :
  c st = (Panicked e, st') → bind c k st = (Panicked e, st').
Proof. intros H. unfold bind. by rewrite H. Qed.

(** C7: when kubectl's [Complete] or [Validate] fails while the rollout
    restart or the rollout status request is built, the function panics with
    that error, before any call is made, instead of returning it. *)
Theorem request_failure_panics w ns d st e :
  (restart_complete w (length (trace st)) = Some e
   ∨ (restart_complete w (length (trace st)) = None
      ∧ restart_validate w (length (trace st)) ns ["deployment/" +:+ deploy_Name d] = Some e)
   → restartNonOlmDeployments w ns d st = (Panicked e, st))
  ∧ (status_complete w (length (trace st)) = Some e
     ∨ (status_complete w (length (trace st)) = None
        ∧ status_validate w (length (trace st)) ns "provider=codeready-toolchain" = Some e)
     → checkRolloutStatus w ns st = (Panicked e, st)).
Proof.
  split.
  - unfold restartNonOlmDeployments, bind, now, panic. simpl.
    intros [-> | [-> ->]]; reflexivity.
  - unfold checkRolloutStatus, bind, now, panic. simpl.
    intros [-> | [-> ->]]; reflexivity.
Qed.

Lemma request_failure_panics_witness :
  checkRolloutStatus broken_status_world "host-operator-ns" (initial host_cluster) =
    (Panicked "required resource not specified", initial host_cluster).
Proof.
  apply (proj2 (request_failure_panics broken_status_world "host-operator-ns"
                  host_operator (initial host_cluster)
                  "required resource not specified")).
  right. split; reflexivity.
Defined.

(** The whole command panics with it. *)
Example broken_status_run :
  (run_restart broken_status_world host_cluster "host" ["host"]).1 =
    Panicked "required resource not specified".
Proof. vm_compute. reflexivity. Qed.

(** ** Empty lists *)

(** C1 does not hold of the code.  With no OLM deployment in the namespace
    the command reports nothing: it goes on to restart the deployment that
    carries the provider label and returns nil.  With no deployment carrying
    the provider label, the pods of the OLM deployment are deleted and nil is
    returned. *)
Theorem empty_list_not_reported :
  run_restart (calm_world true) no_olm_cluster "host" ["host"] =
    (Ret None,
     {| cluster := no_olm_cluster;
        trace := [EvLoadClusterConfig "host";
                  EvNewClient "cool-token" "https://cool-server.com";
                  EvAskForConfirmation (restart_message "host" "host-operator-ns");
                  EvListDeployments "host-operator-ns" olm_label;
                  EvListDeployments "host-operator-ns" provider_label;
                  EvRolloutRestart "host-operator-ns" ["deployment/registration-service"];
                  EvRolloutStatus "host-operator-ns" "provider=codeready-toolchain"] |})
  ∧ run_restart (calm_world true) no_provider_cluster "host" ["host"] =
    (Ret None,
     {| cluster := {| deployments := [host_operator]; pods := [] |};
        trace := [EvLoadClusterConfig "host";
                  EvNewClient "cool-token" "https://cool-server.com";
                  EvAskForConfirmation (restart_message "host" "host-operator-ns");
                  EvListDeployments "host-operator-ns" olm_label;
                  EvListDeployments "host-operator-ns" provider_label;
                  EvListPods (MatchLabels {[ "name" := "host-operator" ]});
                  EvDeletePod "host-operator-ns" "host-operator-1";
                  EvRolloutStatus "host-operator-ns" "provider=codeready-toolchain"] |}).
Proof. split; vm_compute; reflexivity. Qed.

(** ** Loops *)

Lemma for_each_app {A} (f : A → M (option error)) (l1 l2 : list A) st :
  for_each f (l1 ++ l2) st =
    match for_each f l1 st with
    | (Ret None, st1) => for_each f l2 st1
    | other => other
    end.
Proof.
  revert st. induction l1 as [| x l1 IH]; intros st; simpl; [done |].
  unfold bind. destruct (f x st) as [[[err |] | e] st1]; simpl; [done | | done].
  apply IH.
Qed.

(** The loop stops at the first element whose body returns an error. *)
Lemma for_each_first_error {A} (f : A → M (option error)) l1 x l2 st st1 e st2 :
  for_each f l1 st = (Ret None, st1) →
  f x st1 = (Ret (Some e), st2) →
  for_each f (l1 ++ x :: l2) st = (Ret (Some e), st2).
Proof.
  intros H1 H2. rewrite for_each_app, H1. simpl. unfold bind. by rewrite H2.
Qed.

Lemma cl_Delete_trace w p st :
  trace (cl_Delete w p st).2 = trace st ++ [delete_event p].
Proof.
  unfold cl_Delete, bind, now, emit, get_cluster, put_cluster, ret. simpl.
  destruct (delete_fault w _); simpl; [done |].
  by destruct (existsb _ _).
Qed.

Lemma for_each_Delete_trace w l st st1 :
  for_each (cl_Delete w) l st = (Ret None, st1) →
  trace st1 = trace st ++ map delete_event l.
Proof.
  revert st. induction l as [| p l IH]; intros st; simpl.
  - intros [= <-]. by rewrite app_nil_r.
  - unfold bind. pose proof (cl_Delete_trace w p st) as Ht.
    destruct (cl_Delete w p st) as [[[err |] | e] st2]; simpl in *; try discriminate.
    intros H. rewrite (IH _ H), Ht, <- app_assoc. done.
Qed.

Lemma cl_List_pods_trace w sel st r st1 :
  cl_List_pods w sel st = (r, st1) → trace st1 = trace st ++ [EvListPods sel].
Proof.
  unfold cl_List_pods, bind, now, emit, get_cluster, ret. simpl.
  destruct (list_fault w _); simpl; by intros [= _ <-].
Qed.

(** ** Failure of a pod deletion *)

(** C4: let the OLM deployments before [d] be recycled, let the pods of [d]
    be listed as [l1 ++ p :: l2], let the pods of [l1] be deleted, and let
    the deletion of [p] fail with [e].  Then [deletePods] and
    [restartDeployment] return [e] in the state the failed call left: since
    the pods were listed, only the deletions of [l1] and of [p] were called;
    no pod of [l2] is deleted, no rollout status is awaited, no later
    deployment is touched. *)
Theorem pod_deletion_failure_aborts w ns st0 olm1 d olm2 nonolm st1 st2 st3 st4 st5
    l1 p l2 e :
  getExistingDeployments w ns st0 =
    (Ret (Some (olm1 ++ d :: olm2), Some nonolm, None), st1) →
  for_each (λ olmDeployment, deletePods w olmDeployment ns) olm1 st1 = (Ret None, st2) →
  cl_List_pods w (LabelSelectorAsSelector (deploy_Selector d)) st2 =
    (Ret (inl (l1 ++ p :: l2)), st3) →
  for_each (cl_Delete w) l1 st3 = (Ret None, st4) →
  cl_Delete w p st4 = (Ret (Some e), st5) →
  deletePods w d ns st2 = (Ret (Some e), st5)
  ∧ restartDeployment w ns st0 = (Ret (Some e), st5)
  ∧ trace st5 = trace st2
                ++ EvListPods (LabelSelectorAsSelector (deploy_Selector d))
                :: map delete_event (l1 ++ [p]).
Proof.
  intros Hdisc Holm Hlist Hdel Hfail.
  assert (Hd : deletePods w d ns st2 = (Ret (Some e), st5)).
  { unfold deletePods. unfold bind at 1. rewrite Hlist. simpl.
    unfold bind at 1. by rewrite (for_each_first_error _ _ _ _ _ _ _ _ Hdel Hfail). }
  split; [done |]. split.
  - unfold restartDeployment. unfold bind at 1. rewrite Hdisc. simpl.
    unfold bind at 1.
    by rewrite (for_each_first_error (λ x, deletePods w x ns) _ _ _ _ _ _ _ Holm Hd).
  - pose proof (cl_Delete_trace w p st4) as Ht. rewrite Hfail in Ht. simpl in Ht.
    rewrite Ht, (for_each_Delete_trace _ _ _ _ Hdel), (cl_List_pods_trace _ _ _ _ _ Hlist).
    rewrite map_app, <- !app_assoc. done.
Qed.

Lemma pod_deletion_failure_aborts_witness :
  restartDeployment (delete_fails_at 4) "host-operator-ns" (initial host_cluster) =
    (Ret (Some "pods is forbidden"),
     {| cluster := {| deployments := [host_operator; registration_service];
                      pods := [host_pod "host-operator-2"; host_pod "host-operator-3"] |};
        trace := [EvListDeployments "host-operator-ns" olm_label;
                  EvListDeployments "host-operator-ns" provider_label;
                  EvListPods (MatchLabels {[ "name" := "host-operator" ]});
                  delete_event (host_pod "host-operator-1");
                  delete_event (host_pod "host-operator-2")] |}).
Proof.
  pose (discovered := [EvListDeployments "host-operator-ns" olm_label;
                       EvListDeployments "host-operator-ns" provider_label]).
  pose (sel := MatchLabels {[ "name" := "host-operator" ]}).
  pose (st1 := {| cluster := host_cluster; trace := discovered |}).
  pose (st3 := {| cluster := host_cluster; trace := discovered ++ [EvListPods sel] |}).
  pose (left_over := {| deployments := [host_operator; registration_service];
                        pods := [host_pod "host-operator-2"; host_pod "host-operator-3"] |}).
  pose (st4 := {| cluster := left_over;
                  trace := discovered ++ [EvListPods sel;
                                          delete_event (host_pod "host-operator-1")] |}).
  refine (proj1 (proj2
    (pod_deletion_failure_aborts (delete_fails_at 4) "host-operator-ns"
       (initial host_cluster) [] host_operator [] [registration_service]
       st1 st1 st3 st4 _
       [host_pod "host-operator-1"] (host_pod "host-operator-2")
       [host_pod "host-operator-3"] "pods is forbidden" _ _ _ _ _)));
    vm_compute; reflexivity.
Defined.

(** ** Runs in which no call fails *)

Section Calm.

Variable w : World.
Hypothesis Hcalm : calm w.

Lemma cl_List_deployments_ok ns want st :
  cl_List_deployments w ns want st =
    (Ret (inl (matching_deployments ns want (deployments (cluster st)))),
     {| cluster := cluster st; trace := trace st ++ [EvListDeployments ns want] |}).
Proof.
  unfold cl_List_deployments, bind, now, emit, get_cluster, ret. simpl.
  by rewrite (calm_list w Hcalm).
Qed.

Lemma cl_List_pods_ok sel st :
  cl_List_pods w sel st =
    (Ret (inl (selected_pods sel (pods (cluster st)))),
     {| cluster := cluster st; trace := trace st ++ [EvListPods sel] |}).
Proof.
  unfold cl_List_pods, bind, now, emit, get_cluster, ret. simpl.
  by rewrite (calm_list w Hcalm).
Qed.

Lemma checkRolloutStatus_ok ns st :
  checkRolloutStatus w ns st =
    (Ret None,
     {| cluster := cluster st;
        trace := trace st ++ [EvRolloutStatus ns "provider=codeready-toolchain"] |}).
Proof.
  unfold checkRolloutStatus, bind, now, emit, panic, ret. simpl.
  rewrite (calm_status_complete w Hcalm), (calm_status_validate w Hcalm).
  simpl. by rewrite (calm_status_run w Hcalm).
Qed.

Lemma restartNonOlmDeployments_ok ns d st :
  restartNonOlmDeployments w ns d st =
    (Ret None,
     {| cluster := cluster st;
        trace := trace st ++ [EvRolloutRestart ns ["deployment/" +:+ deploy_Name d]] |}).
Proof.
  unfold restartNonOlmDeployments, bind, now, emit, panic, ret. simpl.
  rewrite (calm_restart_complete w Hcalm), (calm_restart_validate w Hcalm).
  simpl. by rewrite (calm_restart_run w Hcalm).
Qed.

Lemma same_pod_key p q : same_pod p q = true ↔ pod_key p = pod_key q.
Proof.
  unfold same_pod, pod_key. rewrite andb_true_iff, !bool_decide_eq_true.
  split; [by intros [-> ->] | by intros [= -> ->]].
Qed.

Lemma cl_Delete_ok p st :
  p ∈ pods (cluster st) →
  cl_Delete w p st =
    (Ret None,
     {| cluster := {| deployments := deployments (cluster st);
                      pods := filter (λ q, same_pod p q = false) (pods (cluster st)) |};
        trace := trace st ++ [delete_event p] |}).
Proof.
  intros Hin. unfold cl_Delete, bind, now, emit, get_cluster, put_cluster, ret. simpl.
  rewrite (calm_delete w Hcalm). simpl.
  assert (existsb (same_pod p) (pods (cluster st)) = true) as ->; [| done].
  apply existsb_exists. exists p. split; [by apply list_elem_of_In |].
  by apply same_pod_key.
Qed.

(** Pods with distinct names that are all present are deleted one after the
    other. *)
Lemma for_each_Delete_ok l st :
  NoDup (pod_key <$> l) →
  (∀ p, p ∈ l → p ∈ pods (cluster st)) →
  ∃ st', for_each (cl_Delete w) l st = (Ret None, st')
         ∧ trace st' = trace st ++ map delete_event l
         ∧ deployments (cluster st') = deployments (cluster st).
Proof.
  revert st. induction l as [| p l IH]; intros st Hnd Hin; simpl.
  - exists st. by rewrite app_nil_r.
  - rewrite fmap_cons in Hnd. apply NoDup_cons in Hnd as [Hp Hnd].
    unfold bind. rewrite cl_Delete_ok by (apply Hin; left).
    destruct (IH {| cluster := {| deployments := deployments (cluster st);
                                  pods := filter (λ q, same_pod p q = false)
                                                 (pods (cluster st)) |};
                    trace := trace st ++ [delete_event p] |} Hnd)
      as (st' & Hrun & Htr & Hdep).
    { intros q Hq. simpl. apply list_elem_of_filter. split; [| apply Hin; by right].
      destruct (same_pod p q) eqn:E; [| done].
      apply same_pod_key in E. destruct Hp. rewrite E.
      by apply list_elem_of_fmap_2. }
    exists st'. split; [done |]. split; [| done].
    rewrite Htr. simpl. by rewrite <- app_assoc.
Qed.

End Calm.

Lemma selected_pods_NoDup sel ps :
  NoDup (pod_key <$> ps) → NoDup (pod_key <$> selected_pods sel ps).
Proof.
  intros Hnd. eapply sublist_NoDup; [apply Hnd |].
  apply fmap_sublist, sublist_filter.
Qed.

Lemma selected_pods_present sel ps p : p ∈ selected_pods sel ps → p ∈ ps.
Proof. unfold selected_pods. rewrite list_elem_of_filter. tauto. Qed.

Lemma bind_returned {A B} (c : M A) (k : A → M B) st a st' :
  c st = (Ret a, st') → bind c k st = k a st'.
Proof. intros H. unfold bind. by rewrite H. Qed.

(** Runs the first computation of a [bind] with the equation [H]. *)
Ltac run_step H := erewrite bind_returned by apply H; cbv beta iota.

Section CalmSteps.

Variable w : World.
Hypothesis Hcalm : calm w.

Lemma getExistingDeployments_ok ns st :
  getExistingDeployments w ns st =
    (Ret (Some (matching_deployments ns olm_label (deployments (cluster st))),
          Some (matching_deployments ns provider_label (deployments (cluster st))),
          None),
     {| cluster := cluster st;
        trace := trace st ++ [EvListDeployments ns olm_label;
                              EvListDeployments ns provider_label] |}).
Proof.
  unfold getExistingDeployments.
  run_step (cl_List_deployments_ok w Hcalm).
  run_step (cl_List_deployments_ok w Hcalm).
  unfold ret. simpl. by rewrite <- app_assoc.
Qed.

Lemma deletePods_ok d ns st :
  NoDup (pod_key <$> pods (cluster st)) →
  ∃ st', deletePods w d ns st = (Ret None, st')
         ∧ trace st' =
             trace st
             ++ EvListPods (LabelSelectorAsSelector (deploy_Selector d))
             :: map delete_event
                  (selected_pods (LabelSelectorAsSelector (deploy_Selector d))
                     (pods (cluster st)))
             ++ [EvRolloutStatus ns "provider=codeready-toolchain"]
         ∧ deployments (cluster st') = deployments (cluster st).
Proof.
  intros Hnd. unfold deletePods.
  run_step (cl_List_pods_ok w Hcalm).
  destruct (for_each_Delete_ok w Hcalm
              (selected_pods (LabelSelectorAsSelector (deploy_Selector d))
                 (pods (cluster st)))
              {| cluster := cluster st;
                 trace := trace st
                          ++ [EvListPods (LabelSelectorAsSelector (deploy_Selector d))] |})
    as (st1 & Hrun & Htr & Hdep).
  { by apply selected_pods_NoDup. }
  { intros p Hp. simpl. by apply selected_pods_present in Hp. }
  run_step Hrun.
  run_step (checkRolloutStatus_ok w Hcalm).
  eexists. split; [reflexivity |]. simpl. rewrite Htr. simpl.
  split; [| done]. by rewrite <- !app_assoc.
Qed.

Lemma restart_loop_ok ns l st :
  for_each (λ nonOlmDeployment,
              check restartNonOlmDeployments w ns nonOlmDeployment in
              check checkRolloutStatus w ns in
              ret None) l st =
    (Ret None,
     {| cluster := cluster st;
        trace := trace st
                 ++ flat_map (λ d, [EvRolloutRestart ns ["deployment/" +:+ deploy_Name d];
                                    EvRolloutStatus ns "provider=codeready-toolchain"]) l |}).
Proof.
  revert st. induction l as [| d l IH]; intros st; simpl.
  - rewrite app_nil_r. by destruct st.
  - erewrite bind_returned; last first.
    { run_step (restartNonOlmDeployments_ok w Hcalm).
      run_step (checkRolloutStatus_ok w Hcalm).
      reflexivity. }
    rewrite IH. simpl. by rewrite <- !app_assoc.
Qed.

End CalmSteps.

(** ** The host operator scenario *)

(** C5: one OLM deployment [d1] whose selector matches the three pods
    [p1], [p2], [p3], one deployment [d2] carrying the provider label, the
    operator approves and no call fails.  The calls made after discovery are
    then: the listing of the pods, three deletions, a wait on the rollout
    status, the rollout restart of [d2], and a second wait; nil is
    returned. *)
Theorem one_olm_deployment_three_pods w c clusterName cfg operator rest d1 d2 p1 p2 p3 :
  calm w →
  load_cluster_config w clusterName = inl cfg →
  new_client w (Token cfg) (ServerAPI cfg) = None →
  ask_for_confirmation w (restart_message operator (OperatorNamespace cfg)) = true →
  NoDup (pod_key <$> pods c) →
  matching_deployments (OperatorNamespace cfg) olm_label (deployments c) = [d1] →
  matching_deployments (OperatorNamespace cfg) provider_label (deployments c) = [d2] →
  selected_pods (LabelSelectorAsSelector (deploy_Selector d1)) (pods c) = [p1; p2; p3] →
  (run_restart w c clusterName (operator :: rest)).1 = Ret None
  ∧ trace (run_restart w c clusterName (operator :: rest)).2 =
      [EvLoadClusterConfig clusterName;
       EvNewClient (Token cfg) (ServerAPI cfg);
       EvAskForConfirmation (restart_message operator (OperatorNamespace cfg));
       EvListDeployments (OperatorNamespace cfg) olm_label;
       EvListDeployments (OperatorNamespace cfg) provider_label;
       EvListPods (LabelSelectorAsSelector (deploy_Selector d1));
       delete_event p1; delete_event p2; delete_event p3;
       EvRolloutStatus (OperatorNamespace cfg) "provider=codeready-toolchain";
       EvRolloutRestart (OperatorNamespace cfg) ["deployment/" +:+ deploy_Name d2];
       EvRolloutStatus (OperatorNamespace cfg) "provider=codeready-toolchain"].
Proof.
  intros Hcalm Hcfg Hcl Hask Hnd Holm Hprov Hpods.
  rewrite (restart_confirmed _ _ _ _ _ _ Hcfg Hcl). cbv zeta. rewrite Hask.
  set (st := {| cluster := c; trace := _ |}).
  destruct (deletePods_ok w Hcalm d1 (OperatorNamespace cfg)
              {| cluster := c;
                 trace := trace st ++ [EvListDeployments (OperatorNamespace cfg) olm_label;
                                       EvListDeployments (OperatorNamespace cfg)
                                         provider_label] |} Hnd)
    as (st1 & Hrun & Htr & _).
  unfold restartDeployment.
  run_step (getExistingDeployments_ok w Hcalm).
  simpl cluster. rewrite Holm, Hprov.
  erewrite bind_returned; last first.
  { simpl for_each. run_step Hrun. reflexivity. }
  cbv beta iota. run_step (restart_loop_ok w Hcalm).
  simpl. split; [done |]. rewrite Htr. simpl. by rewrite Hpods.
Qed.

Lemma calm_world_calm answer : calm (calm_world answer).
Proof. by constructor. Qed.

Lemma one_olm_deployment_three_pods_witness :
  (run_restart (calm_world true) host_cluster "host" ["host"]).1 = Ret None
  ∧ trace (run_restart (calm_world true) host_cluster "host" ["host"]).2 =
      [EvLoadClusterConfig "host";
       EvNewClient "cool-token" "https://cool-server.com";
       EvAskForConfirmation (restart_message "host" "host-operator-ns");
       EvListDeployments "host-operator-ns" olm_label;
       EvListDeployments "host-operator-ns" provider_label;
       EvListPods (LabelSelectorAsSelector (deploy_Selector host_operator));
       delete_event (host_pod "host-operator-1");
       delete_event (host_pod "host-operator-2");
       delete_event (host_pod "host-operator-3");
       EvRolloutStatus "host-operator-ns" "provider=codeready-toolchain";
       EvRolloutRestart "host-operator-ns" ["deployment/registration-service"];
       EvRolloutStatus "host-operator-ns" "provider=codeready-toolchain"].
Proof.
  apply (one_olm_deployment_three_pods (calm_world true) host_cluster "host"
           host_config "host" [] host_operator registration_service
           (host_pod "host-operator-1") (host_pod "host-operator-2")
           (host_pod "host-operator-3")).
  - apply calm_world_calm.
  - reflexivity.
  - reflexivity.
  - reflexivity.
  - apply (bool_decide_unpack _). vm_compute. exact I.
  - vm_compute. reflexivity.
  - vm_compute. reflexivity.
  - vm_compute. reflexivity.
Defined.

(** ** The order of calls *)

Lemma steps_app p l1 l2 :
  steps p (l1 ++ l2) = match steps p l1 with Some q => steps q l2 | None => None end.
Proof.
  revert p. induction l1 as [| ev l1 IH]; intros p; simpl; [done |].
  destruct (step p ev); [apply IH | done].
Qed.

Lemma at_phase_emit p q ev st :
  at_phase p st → step p ev = Some q → at_phase q (emit ev st).2.
Proof.
  unfold at_phase. intros Hp Hstep. simpl. rewrite steps_app, Hp. simpl. by rewrite Hstep.
Qed.

Lemma at_phase_accepted p st : at_phase p st → accepted st.
Proof. unfold at_phase, accepted. intros ->. eauto. Qed.

(** Closes the postcondition of [cycle] from a hypothesis on the phase. *)
Ltac in_machine :=
  simpl in *; split; [by eapply at_phase_accepted | by intros; simplify_eq].

Section Order.

Variable w : World.

Lemma moves_cl_List_deployments p q ns want :
  step p (EvListDeployments ns want) = Some q → moves p q (cl_List_deployments w ns want).
Proof.
  intros Hstep st Hp. pose proof (at_phase_emit _ _ _ _ Hp Hstep) as Hq.
  unfold cl_List_deployments, bind, now, get_cluster, ret. simpl in *.
  by destruct (list_fault w _).
Qed.

Lemma moves_cl_List_pods p q sel :
  step p (EvListPods sel) = Some q → moves p q (cl_List_pods w sel).
Proof.
  intros Hstep st Hp. pose proof (at_phase_emit _ _ _ _ Hp Hstep) as Hq.
  unfold cl_List_pods, bind, now, get_cluster, ret. simpl in *.
  by destruct (list_fault w _).
Qed.

Lemma moves_cl_Delete p q pod :
  step p (delete_event pod) = Some q → moves p q (cl_Delete w pod).
Proof.
  intros Hstep st Hp. pose proof (at_phase_emit _ _ _ _ Hp Hstep) as Hq.
  unfold cl_Delete, bind, now, get_cluster, put_cluster, ret. simpl in *.
  destruct (delete_fault w _); simpl; [done |].
  by destruct (existsb _ _).
Qed.

Lemma moves_checkRolloutStatus p q ns :
  step p (EvRolloutStatus ns "provider=codeready-toolchain") = Some q →
  moves p q (checkRolloutStatus w ns).
Proof.
  intros Hstep st Hp. pose proof (at_phase_emit _ _ _ _ Hp Hstep) as Hq.
  unfold checkRolloutStatus, bind, now, panic, ret. simpl in *.
  destruct (status_complete w _); simpl; [done |].
  by destruct (status_validate w _ _ _).
Qed.

Lemma moves_restartNonOlmDeployments p q ns d :
  step p (EvRolloutRestart ns ["deployment/" +:+ deploy_Name d]) = Some q →
  moves p q (restartNonOlmDeployments w ns d).
Proof.
  intros Hstep st Hp. pose proof (at_phase_emit _ _ _ _ Hp Hstep) as Hq.
  unfold restartNonOlmDeployments, bind, now, panic, ret. simpl in *.
  destruct (restart_complete w _); simpl; [done |].
  by destruct (restart_validate w _ _ _).
Qed.

(** Recycling a deployment: the pods are listed and deleted, then the rollout
    is awaited; the machine is ready for the next deployment. *)
Lemma cycle_deletePods d ns : cycle Recycling Recycling (deletePods w d ns).
Proof.
  unfold cycle, deletePods. eapply hoare_bind.
  { apply (moves_cl_List_pods Recycling Deleting). reflexivity. }
  2: { intros e st Hp. in_machine. }
  intros [items | err].
  2: { apply hoare_ret. intros st Hp. in_machine. }
  eapply hoare_bind.
  { apply (hoare_for_each (at_phase Deleting)
             (λ _ st, at_phase Deleting st)).
    - intros pod _. eapply hoare_conseq.
      + apply (moves_cl_Delete Deleting Deleting). reflexivity.
      + auto.
      + by intros [[err |] | e] st.
    - auto. }
  2: { intros e st Hp. in_machine. }
  intros [err |].
  { apply hoare_ret. intros st Hp. in_machine. }
  eapply hoare_bind.
  { apply (moves_checkRolloutStatus Deleting Recycling). reflexivity. }
  2: { intros e st Hp. in_machine. }
  intros [err |]; apply hoare_ret; intros st Hp; in_machine.
Qed.

(** Restarting a deployment: the restart is triggered, then the rollout is
    awaited. *)
Lemma cycle_restart_body p ns d :
  p = Recycling ∨ p = Restarting →
  cycle p Restarting
        (check restartNonOlmDeployments w ns d in
         check checkRolloutStatus w ns in
         ret None).
Proof.
  intros Hp. unfold cycle. eapply hoare_bind.
  { apply (moves_restartNonOlmDeployments p Triggered). by destruct Hp as [-> | ->]. }
  2: { intros e st Hst. in_machine. }
  intros [err |].
  { apply hoare_ret. intros st Hst. in_machine. }
  eapply hoare_bind.
  { apply (moves_checkRolloutStatus Triggered Restarting). reflexivity. }
  2: { intros e st Hst. in_machine. }
  intros [err |]; apply hoare_ret; intros st Hst; in_machine.
Qed.

Lemma cycle_restartDeployment ns :
  hoare (at_phase Confirmed) (restartDeployment w ns)
        (λ r st, accepted st
                 ∧ (r = Ret None → at_phase Recycling st ∨ at_phase Restarting st)).
Proof.
  unfold restartDeployment, getExistingDeployments.
  eapply hoare_bind with
    (R := λ r st, match r with
                  | Ret (_, _, None) => at_phase Recycling st
                  | _ => accepted st
                  end).
  { eapply hoare_bind.
    { apply (moves_cl_List_deployments Confirmed Discovering). reflexivity. }
    2: { intros e st Hp. simpl in *. by eapply at_phase_accepted. }
    intros [olm | err].
    2: { apply hoare_ret. intros st Hp. simpl in *. by eapply at_phase_accepted. }
    eapply hoare_bind.
    { apply (moves_cl_List_deployments Discovering Recycling). reflexivity. }
    2: { intros e st Hp. simpl in *. by eapply at_phase_accepted. }
    intros [nonolm | err]; apply hoare_ret; intros st Hp; simpl in *; [done |].
    by eapply at_phase_accepted. }
  2: { intros e st Hp. split; [done | by intros]. }
  intros [[olm nonolm] [err |]].
  { apply hoare_ret. intros st Hp. split; [done | by intros]. }
  destruct olm as [olmItems |].
  2: { apply hoare_ret. intros st Hp. split; [by eapply at_phase_accepted | by intros]. }
  eapply hoare_bind.
  { apply (hoare_for_each (at_phase Recycling)
             (λ r st, accepted st ∧ (r = Ret None → at_phase Recycling st))).
    - intros d _. eapply hoare_conseq; [apply cycle_deletePods | auto |].
      intros [[err |] | e] st [Hacc Hp]; auto.
    - intros st Hp. in_machine. }
  2: { intros e st [Hacc _]. split; [done | by intros]. }
  intros [err |].
  { apply hoare_ret. intros st [Hacc _]. split; [done | by intros]. }
  destruct nonolm as [nonOlmItems |].
  2: { apply hoare_ret. intros st [Hacc _]. split; [done | by intros]. }
  eapply hoare_conseq with
    (P' := λ st, at_phase Recycling st ∨ at_phase Restarting st);
    [| intros st [_ Hp]; left; by apply Hp | intros r st H; exact H].
  eapply hoare_bind.
  { apply (hoare_for_each (λ st, at_phase Recycling st ∨ at_phase Restarting st)
             (λ r st, accepted st
                      ∧ (r = Ret None → at_phase Recycling st ∨ at_phase Restarting st))).
    - intros d _ st [Hp | Hp].
      + destruct (cycle_restart_body Recycling ns d (or_introl eq_refl) st Hp)
          as [Hacc Hq].
        destruct (_ st).1 as [[err |] | e]; auto.
      + destruct (cycle_restart_body Restarting ns d (or_intror eq_refl) st Hp)
          as [Hacc Hq].
        destruct (_ st).1 as [[err |] | e]; auto.
    - intros st Hp. split; [| done]. destruct Hp; by eapply at_phase_accepted. }
  { intros [err |]; apply hoare_ret.
    - intros st [Hacc _]. split; [done | by intros].
    - intros st [Hacc Hp]. split; [done |]. auto. }
  simpl. intros e st [Hacc _]. split; [done | by intros].
Qed.

End Order.

Lemma run_restart_machine w c clusterName ops :
  accepted (run_restart w c clusterName ops).2
  ∧ ((run_restart w c clusterName ops).1 = Ret None →
     at_phase Confirmed (run_restart w c clusterName ops).2
     ∨ at_phase Recycling (run_restart w c clusterName ops).2
     ∨ at_phase Restarting (run_restart w c clusterName ops).2).
Proof.
  destruct (load_cluster_config w clusterName) as [cfg | err] eqn:Hcfg.
  2: { rewrite (restart_config_error _ _ _ _ _ Hcfg). simpl. split; [by eexists | done]. }
  destruct (new_client w (Token cfg) (ServerAPI cfg)) as [err |] eqn:Hcl.
  { rewrite (restart_client_error _ _ _ _ _ _ Hcfg Hcl). simpl.
    split; [by eexists | done]. }
  destruct ops as [| operator rest].
  { rewrite (restart_no_operator _ _ _ _ Hcfg Hcl). simpl.
    split; [by eexists | done]. }
  rewrite (restart_confirmed _ _ _ _ _ _ Hcfg Hcl). cbv zeta.
  destruct (ask_for_confirmation w _).
  - edestruct (cycle_restartDeployment w (OperatorNamespace cfg)) as [Hacc Hp];
      [| split; [apply Hacc | intros Hr; right; apply Hp, Hr]].
    reflexivity.
  - simpl. split; [by eexists | intros _; by left].
Qed.

Lemma steps_adjacent p l1 e1 e2 l2 :
  is_Some (steps p (l1 ++ e1 :: e2 :: l2)) → may_follow (kind e1) (kind e2) = true.
Proof.
  rewrite steps_app. destruct (steps p l1) as [p1 |]; [| by intros [? ?]].
  simpl. destruct (step p1 e1) as [p2 |] eqn:H1; [| by intros [? ?]].
  destruct (step p2 e2) as [p3 |] eqn:H2; [| by intros [? ?]].
  intros _. destruct p1, e1; simplify_eq/=; destruct e2; by simplify_eq/=.
Qed.

(** Once a restart was triggered the machine only alternates between
    restarts and waits. *)
Lemma steps_restart_phase p l :
  p = Triggered ∨ p = Restarting →
  is_Some (steps p l) →
  Forall (λ ev, kind ev = KWait ∨ kind ev = KRestart) l.
Proof.
  revert p. induction l as [| ev l IH]; intros p Hp; [constructor |].
  simpl. destruct (step p ev) as [q |] eqn:Hstep; [| by intros [? ?]].
  intros Hl. constructor.
  - destruct Hp as [-> | ->], ev; simplify_eq/=; auto.
  - apply (IH q); [| done]. destruct Hp as [-> | ->], ev; simplify_eq/=; auto.
Qed.

Lemma steps_after_restart p l1 ev l2 :
  is_Some (steps p (l1 ++ ev :: l2)) →
  kind ev = KRestart →
  Forall (λ ev', kind ev' = KWait ∨ kind ev' = KRestart) l2.
Proof.
  rewrite steps_app. destruct (steps p l1) as [p1 |]; [| by intros [? ?]].
  simpl. destruct (step p1 ev) as [p2 |] eqn:Hstep; [| by intros [? ?]].
  intros Hl Hk. apply (steps_restart_phase p2); [| done].
  destruct p1, ev; simplify_eq/=; auto.
Qed.

Lemma steps_last p l ev q :
  steps p (l ++ [ev]) = Some q →
  q = Confirmed ∨ q = Recycling ∨ q = Restarting →
  kind ev = KSetup ∨ kind ev = KDiscover ∨ kind ev = KWait.
Proof.
  rewrite steps_app. destruct (steps p l) as [p1 |]; [| done].
  simpl. destruct (step p1 ev) as [p2 |] eqn:Hstep; [| done].
  intros [= <-] Hq.
  destruct p1, ev; simplify_eq/=; auto; by destruct Hq as [? | [? | ?]].
Qed.

(** C6: the order of the calls of every run.
    - Two calls that follow each other are related by [may_follow]: once
      the pods of an OLM deployment are listed, only deletions and then the
      wait on the rollout status follow; the pods of the next deployment are
      listed, or a restart is triggered, only right after discovery or after
      a wait; a restart is followed by a wait and by nothing else.
    - After a restart was triggered there are only waits and restarts: no
      OLM deployment is recycled any more.
    - A run that returns nil does not end on a pod listing, a deletion or a
      restart: the wait that follows them was made. *)
Theorem restart_order w c clusterName ops :
  let tr := trace (run_restart w c clusterName ops).2 in
  (∀ l1 e1 e2 l2, tr = l1 ++ e1 :: e2 :: l2 → may_follow (kind e1) (kind e2) = true)
  ∧ (∀ l1 ev l2, tr = l1 ++ ev :: l2 → kind ev = KRestart →
                 Forall (λ ev', kind ev' = KWait ∨ kind ev' = KRestart) l2)
  ∧ ((run_restart w c clusterName ops).1 = Ret None →
     ∀ l ev, tr = l ++ [ev] → kind ev = KSetup ∨ kind ev = KDiscover ∨ kind ev = KWait).
Proof.
  intros tr. destruct (run_restart_machine w c clusterName ops) as [Hacc Hend].
  unfold accepted, at_phase in *. fold tr in Hacc, Hend.
  split; [| split].
  - intros l1 e1 e2 l2 E. rewrite E in Hacc. by eapply steps_adjacent.
  - intros l1 ev l2 E. rewrite E in Hacc. by eapply steps_after_restart.
  - intros Hr l ev E. specialize (Hend Hr). rewrite E in Hend.
    destruct Hend as [H | [H | H]]; eapply steps_last; eauto.
Qed.

(** ** The calls made do not depend on earlier calls *)

Lemma state_eta st : st = {| cluster := cluster st; trace := trace st ++ [] |}.
Proof. destruct st. simpl. by rewrite app_nil_r. Qed.

Lemma oblivious_ret {A} (a : A) : oblivious (ret a).
Proof.
  intros st1 st2 [Hc Hl]. exists (Ret a), (cluster st1), []. unfold ret.
  split; [by rewrite <- state_eta |]. rewrite Hc. by rewrite <- state_eta.
Qed.

Lemma oblivious_panic {A} e : oblivious (panic (A:=A) e).
Proof.
  intros st1 st2 [Hc Hl]. exists (Panicked e), (cluster st1), []. unfold panic.
  split; [by rewrite <- state_eta |]. rewrite Hc. by rewrite <- state_eta.
Qed.

Lemma oblivious_now : oblivious now.
Proof.
  intros st1 st2 [Hc Hl]. exists (Ret (length (trace st1))), (cluster st1), [].
  unfold now. split; [by rewrite <- state_eta |]. rewrite Hc, Hl. by rewrite <- state_eta.
Qed.

Lemma oblivious_get_cluster : oblivious get_cluster.
Proof.
  intros st1 st2 [Hc Hl]. exists (Ret (cluster st1)), (cluster st1), [].
  unfold get_cluster. split; [by rewrite <- state_eta |].
  rewrite Hc. by rewrite <- state_eta.
Qed.

Lemma oblivious_put_cluster c : oblivious (put_cluster c).
Proof.
  intros st1 st2 _. exists (Ret tt), c, []. unfold put_cluster.
  by rewrite !app_nil_r.
Qed.

Lemma oblivious_emit ev : oblivious (emit ev).
Proof.
  intros st1 st2 [Hc Hl]. exists (Ret tt), (cluster st1), [ev]. unfold emit.
  by rewrite Hc.
Qed.

Lemma oblivious_bind {A B} (c : M A) (k : A → M B) :
  oblivious c → (∀ a, oblivious (k a)) → oblivious (bind c k).
Proof.
  intros Hc Hk st1 st2 Hagree.
  destruct (Hc st1 st2 Hagree) as (r & cl & l & H1 & H2).
  unfold bind. rewrite H1, H2. destruct r as [a | e].
  - destruct (Hk a {| cluster := cl; trace := trace st1 ++ l |}
                   {| cluster := cl; trace := trace st2 ++ l |})
      as (r' & cl' & l' & H1' & H2').
    { split; [done |]. simpl. rewrite !length_app. by destruct Hagree as [_ ->]. }
    exists r', cl', (l ++ l'). simpl in *. by rewrite H1', H2', !app_assoc.
  - by exists (Panicked e), cl, l.
Qed.

Lemma oblivious_for_each {A} (f : A → M (option error)) l :
  (∀ x, oblivious (f x)) → oblivious (for_each f l).
Proof.
  intros Hf. induction l as [| x l IH]; simpl; [apply oblivious_ret |].
  apply oblivious_bind; [apply Hf |].
  intros [err |]; [apply oblivious_ret | apply IH].
Qed.

(** Splits a computation along its [bind]s and the case distinctions on
    what the collaborators answered. *)
Ltac oblivious_steps :=
  repeat first
    [ apply oblivious_ret | apply oblivious_panic | apply oblivious_now
    | apply oblivious_emit | apply oblivious_get_cluster | apply oblivious_put_cluster
    | apply oblivious_bind; [| intros ?]
    | match goal with
      | |- oblivious (match ?x with _ => _ end) => destruct x
      | |- oblivious (if ?x then _ else _) => destruct x
      | |- oblivious (let _ := _ in _) => cbv zeta
      end ].

Section Oblivious.

Variable w : World.

Lemma oblivious_cl_List_deployments ns want : oblivious (cl_List_deployments w ns want).
Proof. unfold cl_List_deployments. oblivious_steps. Qed.

Lemma oblivious_cl_List_pods sel : oblivious (cl_List_pods w sel).
Proof. unfold cl_List_pods. oblivious_steps. Qed.

Lemma oblivious_cl_Delete pod : oblivious (cl_Delete w pod).
Proof. unfold cl_Delete. oblivious_steps. Qed.

Lemma oblivious_checkRolloutStatus ns : oblivious (checkRolloutStatus w ns).
Proof. unfold checkRolloutStatus. oblivious_steps. Qed.

Lemma oblivious_restartNonOlmDeployments ns d :
  oblivious (restartNonOlmDeployments w ns d).
Proof. unfold restartNonOlmDeployments. oblivious_steps. Qed.

Lemma oblivious_deletePods d ns : oblivious (deletePods w d ns).
Proof.
  unfold deletePods. cbv zeta.
  apply oblivious_bind; [apply oblivious_cl_List_pods |].
  intros [items | err]; [| apply oblivious_ret].
  apply oblivious_bind.
  { apply oblivious_for_each. intros. apply oblivious_cl_Delete. }
  intros [err |]; [apply oblivious_ret |].
  apply oblivious_bind; [apply oblivious_checkRolloutStatus |].
  intros [err |]; apply oblivious_ret.
Qed.

Lemma oblivious_getExistingDeployments ns : oblivious (getExistingDeployments w ns).
Proof.
  unfold getExistingDeployments.
  apply oblivious_bind; [apply oblivious_cl_List_deployments |].
  intros [olm | err]; [| apply oblivious_ret].
  apply oblivious_bind; [apply oblivious_cl_List_deployments |].
  intros [nonolm | err]; apply oblivious_ret.
Qed.

Lemma oblivious_restartDeployment ns : oblivious (restartDeployment w ns).
Proof.
  unfold restartDeployment.
  apply oblivious_bind; [apply oblivious_getExistingDeployments |].
  intros [[olm nonolm] [err |]]; [apply oblivious_ret |].
  destruct olm as [olmItems |]; [| apply oblivious_ret].
  apply oblivious_bind.
  { apply oblivious_for_each. intros. apply oblivious_deletePods. }
  intros [err |]; [apply oblivious_ret |].
  destruct nonolm as [nonOlmItems |]; [| apply oblivious_ret].
  apply oblivious_bind.
  { apply oblivious_for_each. intros d.
    apply oblivious_bind; [apply oblivious_restartNonOlmDeployments |].
    intros [err |]; [apply oblivious_ret |].
    apply oblivious_bind; [apply oblivious_checkRolloutStatus |].
    intros [err |]; apply oblivious_ret. }
  intros [err |]; apply oblivious_ret.
Qed.

End Oblivious.

(** ** The operator type *)

(** C10: the operator type is not compared with [host], [member-1] or
    [member-2].  With any two operator types, once the configuration and
    the client are there, both runs ask for confirmation, each with its own
    operator type in the message; if the operator gives the same answer to
    both, then the two runs return the same result, leave the same cluster
    and make the same calls [l] after the prompt. *)
Theorem operator_type_not_validated w c clusterName cfg op1 rest1 op2 rest2 :
  load_cluster_config w clusterName = inl cfg →
  new_client w (Token cfg) (ServerAPI cfg) = None →
  ask_for_confirmation w (restart_message op1 (OperatorNamespace cfg)) =
    ask_for_confirmation w (restart_message op2 (OperatorNamespace cfg)) →
  ∃ r cl l,
    run_restart w c clusterName (op1 :: rest1) =
      (r, {| cluster := cl;
             trace := [EvLoadClusterConfig clusterName;
                       EvNewClient (Token cfg) (ServerAPI cfg);
                       EvAskForConfirmation
                         (restart_message op1 (OperatorNamespace cfg))] ++ l |})
    ∧ run_restart w c clusterName (op2 :: rest2) =
      (r, {| cluster := cl;
             trace := [EvLoadClusterConfig clusterName;
                       EvNewClient (Token cfg) (ServerAPI cfg);
                       EvAskForConfirmation
                         (restart_message op2 (OperatorNamespace cfg))] ++ l |}).
Proof.
  intros Hcfg Hcl Hask.
  rewrite !(restart_confirmed _ _ _ _ _ _ Hcfg Hcl). cbv zeta. rewrite Hask.
  destruct (ask_for_confirmation w (restart_message op2 (OperatorNamespace cfg))).
  - apply (oblivious_restartDeployment w (OperatorNamespace cfg)). by split.
  - exists (Ret None), c, []. by rewrite !app_nil_r.
Qed.

Lemma operator_type_not_validated_witness :
  ∃ r cl l,
    run_restart (calm_world true) host_cluster "host" ["foo"] =
      (r, {| cluster := cl;
             trace := [EvLoadClusterConfig "host";
                       EvNewClient "cool-token" "https://cool-server.com";
                       EvAskForConfirmation (restart_message "foo" "host-operator-ns")]
                      ++ l |})
    ∧ run_restart (calm_world true) host_cluster "host" ["host"] =
      (r, {| cluster := cl;
             trace := [EvLoadClusterConfig "host";
                       EvNewClient "cool-token" "https://cool-server.com";
                       EvAskForConfirmation (restart_message "host" "host-operator-ns")]
                      ++ l |}).
Proof.
  apply (operator_type_not_validated (calm_world true) host_cluster "host" host_config
           "foo" [] "host" []); reflexivity.
Defined.

(** With the operator type [foo] the host operator is restarted all the
    same. *)
Example restart_foo :
  map kind (trace (run_restart (calm_world true) host_cluster "host" ["foo"]).2) =
    [KSetup; KSetup; KSetup; KDiscover; KDiscover; KListPods; KDelete; KDelete; KDelete;
     KWait; KRestart; KWait].
Proof. vm_compute. reflexivity. Qed.

(** * Further properties of restart.go *)

(** ** Failures before the prompt *)

(** X1: when the cluster configuration cannot be loaded, or the client
    cannot be made, [restart] returns that very error; the operator is not
    asked and no call reaches the cluster. *)
Theorem setup_failure_aborts w c clusterName ops e :
  load_cluster_config w clusterName = inr e
  ∨ (∃ cfg, load_cluster_config w clusterName = inl cfg
            ∧ new_client w (Token cfg) (ServerAPI cfg) = Some e) →
  (run_restart w c clusterName ops).1 = Ret (Some e)
  ∧ cluster (run_restart w c clusterName ops).2 = c
  ∧ Forall (λ ev, ∃ x y, ev = EvLoadClusterConfig x ∨ ev = EvNewClient x y)
           (trace (run_restart w c clusterName ops).2).
Proof.
  intros [Hcfg | (cfg & Hcfg & Hcl)].
  - rewrite (restart_config_error _ _ _ _ _ Hcfg). simpl.
    repeat split. repeat constructor. exists clusterName, "". by left.
  - rewrite (restart_client_error _ _ _ _ _ _ Hcfg Hcl). simpl.
    repeat split. repeat constructor.
    + exists clusterName, "". by left.
    + exists (Token cfg), (ServerAPI cfg). by right.
Qed.

Lemma setup_failure_aborts_witness :
  (run_restart no_config_world host_cluster "host" ["host"]).1 =
    Ret (Some "the provided cluster-name 'host' is not present in your ksctl.yaml file")
  ∧ cluster (run_restart no_config_world host_cluster "host" ["host"]).2 = host_cluster
  ∧ Forall (λ ev, ∃ x y, ev = EvLoadClusterConfig x ∨ ev = EvNewClient x y)
           (trace (run_restart no_config_world host_cluster "host" ["host"]).2).
Proof.
  apply (setup_failure_aborts no_config_world host_cluster "host" ["host"]).
  left. reflexivity.
Defined.

(** ** Failures of discovery *)

(** X2: when either of the two list requests of discovery fails,
    [restartDeployment] returns that error; the cluster is as before and
    the only calls made are list requests for deployments. *)
Theorem discovery_failure_aborts w ns st e :
  list_fault w (length (trace st)) = Some e
  ∨ (list_fault w (length (trace st)) = None
     ∧ list_fault w (S (length (trace st))) = Some e) →
  (restartDeployment w ns st).1 = Ret (Some e)
  ∧ cluster (restartDeployment w ns st).2 = cluster st
  ∧ ∃ l, trace (restartDeployment w ns st).2 = trace st ++ l
         ∧ Forall (λ ev, kind ev = KDiscover) l.
Proof.
  unfold restartDeployment, getExistingDeployments, cl_List_deployments,
    bind, now, emit, get_cluster, ret.
  simpl. intros [H | [H1 H2]].
  - rewrite H. simpl. repeat split. eexists. split; [done |]. by repeat constructor.
  - rewrite H1. simpl. rewrite length_app, Nat.add_1_r, H2. simpl. repeat split.
    eexists. split; [by rewrite <- app_assoc |]. by repeat constructor.
Qed.

Lemma discovery_failure_aborts_witness :
  (restartDeployment (faulty_world (fails_at 1 "etcdserver: request timed out")
                        never_fails never_fails never_fails)
     "host-operator-ns" (initial host_cluster)).1 =
    Ret (Some "etcdserver: request timed out")
  ∧ cluster (restartDeployment (faulty_world (fails_at 1 "etcdserver: request timed out")
                                  never_fails never_fails never_fails)
               "host-operator-ns" (initial host_cluster)).2 = host_cluster
  ∧ ∃ l, trace (restartDeployment (faulty_world (fails_at 1 "etcdserver: request timed out")
                                     never_fails never_fails never_fails)
                  "host-operator-ns" (initial host_cluster)).2 = trace (initial host_cluster) ++ l
         ∧ Forall (λ ev, kind ev = KDiscover) l.
Proof.
  apply (discovery_failure_aborts
           (faulty_world (fails_at 1 "etcdserver: request timed out")
              never_fails never_fails never_fails)
           "host-operator-ns" (initial host_cluster) "etcdserver: request timed out").
  right. split; reflexivity.
Defined.

(** ** Failures while recycling and restarting *)

Section Phases.

Variable w : World.

(** The first OLM deployment whose recycling returns an error ends the
    run. *)
Lemma recycle_phase_error ns st0 olm1 d olm2 nonolm st1 st2 e st3 :
  getExistingDeployments w ns st0 =
    (Ret (Some (olm1 ++ d :: olm2), Some nonolm, None), st1) →
  for_each (λ olmDeployment, deletePods w olmDeployment ns) olm1 st1 = (Ret None, st2) →
  deletePods w d ns st2 = (Ret (Some e), st3) →
  restartDeployment w ns st0 = (Ret (Some e), st3).
Proof.
  intros Hdisc Holm Hd. unfold restartDeployment. run_step Hdisc.
  unfold bind at 1.
  by rewrite (for_each_first_error (λ x, deletePods w x ns) _ _ _ _ _ _ _ Holm Hd).
Qed.

(** The first deployment whose restart, or the wait after it, returns an
    error ends the run. *)
Lemma restart_phase_error ns st0 olm nonolm1 d nonolm2 st1 st2 st3 e st4 :
  getExistingDeployments w ns st0 =
    (Ret (Some olm, Some (nonolm1 ++ d :: nonolm2), None), st1) →
  for_each (λ olmDeployment, deletePods w olmDeployment ns) olm st1 = (Ret None, st2) →
  for_each (λ nonOlmDeployment,
              check restartNonOlmDeployments w ns nonOlmDeployment in
              check checkRolloutStatus w ns in
              ret None) nonolm1 st2 = (Ret None, st3) →
  (check restartNonOlmDeployments w ns d in
   check checkRolloutStatus w ns in
   ret None) st3 = (Ret (Some e), st4) →
  restartDeployment w ns st0 = (Ret (Some e), st4).
Proof.
  intros Hdisc Holm Hnon Hd. unfold restartDeployment. run_step Hdisc.
  run_step Holm. unfold bind at 1.
  by rewrite (for_each_first_error _ _ _ _ _ _ _ _ Hnon Hd).
Qed.

End Phases.

(** X3: when the pods of an OLM deployment cannot be listed,
    [restartDeployment] returns that error right after the list request: no
    pod is deleted, no rollout is awaited, no further deployment is
    touched. *)
Theorem pod_listing_failure_aborts w ns st0 olm1 d olm2 nonolm st1 st2 e :
  getExistingDeployments w ns st0 =
    (Ret (Some (olm1 ++ d :: olm2), Some nonolm, None), st1) →
  for_each (λ olmDeployment, deletePods w olmDeployment ns) olm1 st1 = (Ret None, st2) →
  list_fault w (length (trace st2)) = Some e →
  restartDeployment w ns st0 =
    (Ret (Some e),
     {| cluster := cluster st2;
        trace := trace st2 ++ [EvListPods (LabelSelectorAsSelector (deploy_Selector d))] |}).
Proof.
  intros Hdisc Holm Hfault. eapply recycle_phase_error; [done | done |].
  unfold deletePods, cl_List_pods, bind, now, emit, get_cluster, ret. simpl.
  by rewrite Hfault.
Qed.

Lemma pod_listing_failure_aborts_witness :
  restartDeployment (faulty_world (fails_at 2 "pods is forbidden")
                       never_fails never_fails never_fails)
    "host-operator-ns" (initial host_cluster) =
    (Ret (Some "pods is forbidden"),
     {| cluster := host_cluster;
        trace := [EvListDeployments "host-operator-ns" olm_label;
                  EvListDeployments "host-operator-ns" provider_label]
                 ++ [EvListPods (LabelSelectorAsSelector (deploy_Selector host_operator))] |}).
Proof.
  pose (st1 := {| cluster := host_cluster;
                  trace := [EvListDeployments "host-operator-ns" olm_label;
                            EvListDeployments "host-operator-ns" provider_label] |}).
  apply (pod_listing_failure_aborts _ "host-operator-ns" (initial host_cluster)
           [] host_operator [] [registration_service] st1 st1 "pods is forbidden");
    vm_compute; reflexivity.
Defined.

(** X4: when the wait on the rollout status that follows the deletion of
    the pods returns an error, [restartDeployment] returns it.  The pods
    stay deleted (the cluster is the one the deletions left), and nothing is
    called after the failed wait. *)
Theorem recycle_wait_failure_aborts w ns st0 olm1 d olm2 nonolm st1 st2 items st3 st4 e :
  getExistingDeployments w ns st0 =
    (Ret (Some (olm1 ++ d :: olm2), Some nonolm, None), st1) →
  for_each (λ olmDeployment, deletePods w olmDeployment ns) olm1 st1 = (Ret None, st2) →
  cl_List_pods w (LabelSelectorAsSelector (deploy_Selector d)) st2 = (Ret (inl items), st3) →
  for_each (cl_Delete w) items st3 = (Ret None, st4) →
  status_complete w (length (trace st4)) = None →
  status_validate w (length (trace st4)) ns "provider=codeready-toolchain" = None →
  status_run w (length (trace st4)) ns "provider=codeready-toolchain" = Some e →
  restartDeployment w ns st0 =
    (Ret (Some e),
     {| cluster := cluster st4;
        trace := trace st4 ++ [EvRolloutStatus ns "provider=codeready-toolchain"] |}).
Proof.
  intros Hdisc Holm Hlist Hdel Hc Hv Hrun. eapply recycle_phase_error; [done | done |].
  unfold deletePods. run_step Hlist. run_step Hdel.
  unfold checkRolloutStatus, bind, now, emit, panic, ret. simpl.
  by rewrite Hc, Hv, Hrun.
Qed.

Lemma recycle_wait_failure_aborts_witness :
  restartDeployment (faulty_world never_fails never_fails never_fails
                       (fails_at 6 "timed out waiting for the condition"))
    "host-operator-ns" (initial host_cluster) =
    (Ret (Some "timed out waiting for the condition"),
     {| cluster := {| deployments := [host_operator; registration_service]; pods := [] |};
        trace := [EvListDeployments "host-operator-ns" olm_label;
                  EvListDeployments "host-operator-ns" provider_label;
                  EvListPods (LabelSelectorAsSelector (deploy_Selector host_operator));
                  delete_event (host_pod "host-operator-1");
                  delete_event (host_pod "host-operator-2");
                  delete_event (host_pod "host-operator-3")]
                 ++ [EvRolloutStatus "host-operator-ns" "provider=codeready-toolchain"] |}).
Proof.
  pose (discovered := [EvListDeployments "host-operator-ns" olm_label;
                       EvListDeployments "host-operator-ns" provider_label]).
  pose (listed := discovered
                  ++ [EvListPods (LabelSelectorAsSelector (deploy_Selector host_operator))]).
  pose (st1 := {| cluster := host_cluster; trace := discovered |}).
  pose (st3 := {| cluster := host_cluster; trace := listed |}).
  pose (st4 := {| cluster := {| deployments := [host_operator; registration_service];
                                pods := [] |};
                  trace := listed ++ [delete_event (host_pod "host-operator-1");
                                      delete_event (host_pod "host-operator-2");
                                      delete_event (host_pod "host-operator-3")] |}).
  apply (recycle_wait_failure_aborts _ "host-operator-ns" (initial host_cluster)
           [] host_operator [] [registration_service] st1 st1
           (pods host_cluster) st3 st4 "timed out waiting for the condition");
    vm_compute; reflexivity.
Defined.

(** X5: when the rollout restart of a deployment returns an error,
    [restartDeployment] returns it right after that call: the rollout of
    this deployment is not awaited and the deployments after it are not
    restarted. *)
Theorem restart_failure_aborts w ns st0 olm nonolm1 d nonolm2 st1 st2 st3 e :
  getExistingDeployments w ns st0 =
    (Ret (Some olm, Some (nonolm1 ++ d :: nonolm2), None), st1) →
  for_each (λ olmDeployment, deletePods w olmDeployment ns) olm st1 = (Ret None, st2) →
  for_each (λ nonOlmDeployment,
              check restartNonOlmDeployments w ns nonOlmDeployment in
              check checkRolloutStatus w ns in
              ret None) nonolm1 st2 = (Ret None, st3) →
  restart_complete w (length (trace st3)) = None →
  restart_validate w (length (trace st3)) ns ["deployment/" +:+ deploy_Name d] = None →
  restart_run w (length (trace st3)) ns ["deployment/" +:+ deploy_Name d] = Some e →
  restartDeployment w ns st0 =
    (Ret (Some e),
     {| cluster := cluster st3; trace := trace st3 ++ [restart_event ns d] |}).
Proof.
  intros Hdisc Holm Hnon Hc Hv Hrun. eapply restart_phase_error; [done | done | done |].
  unfold restartNonOlmDeployments, bind, now, emit, panic, ret. simpl.
  by rewrite Hc, Hv, Hrun.
Qed.

Lemma restart_failure_aborts_witness :
  restartDeployment (faulty_world never_fails never_fails
                       (fails_at 7 "deployments.apps is forbidden") never_fails)
    "host-operator-ns" (initial host_cluster) =
    (Ret (Some "deployments.apps is forbidden"),
     {| cluster := {| deployments := [host_operator; registration_service]; pods := [] |};
        trace := [EvListDeployments "host-operator-ns" olm_label;
                  EvListDeployments "host-operator-ns" provider_label;
                  EvListPods (LabelSelectorAsSelector (deploy_Selector host_operator));
                  delete_event (host_pod "host-operator-1");
                  delete_event (host_pod "host-operator-2");
                  delete_event (host_pod "host-operator-3");
                  EvRolloutStatus "host-operator-ns" "provider=codeready-toolchain"]
                 ++ [restart_event "host-operator-ns" registration_service] |}).
Proof.
  pose (discovered := [EvListDeployments "host-operator-ns" olm_label;
                       EvListDeployments "host-operator-ns" provider_label]).
  pose (st1 := {| cluster := host_cluster; trace := discovered |}).
  pose (st2 := {| cluster := {| deployments := [host_operator; registration_service];
                                pods := [] |};
                  trace := discovered
                           ++ [EvListPods (LabelSelectorAsSelector
                                             (deploy_Selector host_operator));
                               delete_event (host_pod "host-operator-1");
                               delete_event (host_pod "host-operator-2");
                               delete_event (host_pod "host-operator-3");
                               EvRolloutStatus "host-operator-ns"
                                 "provider=codeready-toolchain"] |}).
  apply (restart_failure_aborts _ "host-operator-ns" (initial host_cluster)
           [host_operator] [] registration_service [] st1 st2 st2
           "deployments.apps is forbidden");
    vm_compute; reflexivity.
Defined.

(** X6: when the wait that follows a rollout restart returns an error,
    [restartDeployment] returns it: the restart that was triggered is not
    undone, and the deployments after it are not restarted. *)
Theorem restart_wait_failure_aborts w ns st0 olm nonolm1 d nonolm2 st1 st2 st3 e :
  getExistingDeployments w ns st0 =
    (Ret (Some olm, Some (nonolm1 ++ d :: nonolm2), None), st1) →
  for_each (λ olmDeployment, deletePods w olmDeployment ns) olm st1 = (Ret None, st2) →
  for_each (λ nonOlmDeployment,
              check restartNonOlmDeployments w ns nonOlmDeployment in
              check checkRolloutStatus w ns in
              ret None) nonolm1 st2 = (Ret None, st3) →
  restart_complete w (length (trace st3)) = None →
  restart_validate w (length (trace st3)) ns ["deployment/" +:+ deploy_Name d] = None →
  restart_run w (length (trace st3)) ns ["deployment/" +:+ deploy_Name d] = None →
  status_complete w (S (length (trace st3))) = None →
  status_validate w (S (length (trace st3))) ns "provider=codeready-toolchain" = None →
  status_run w (S (length (trace st3))) ns "provider=codeready-toolchain" = Some e →
  restartDeployment w ns st0 =
    (Ret (Some e),
     {| cluster := cluster st3;
        trace := trace st3 ++ [restart_event ns d;
                               EvRolloutStatus ns "provider=codeready-toolchain"] |}).
Proof.
  intros Hdisc Holm Hnon Hc Hv Hrun Hsc Hsv Hsrun.
  eapply restart_phase_error; [done | done | done |].
  unfold restartNonOlmDeployments, checkRolloutStatus, bind, now, emit, panic, ret.
  simpl. rewrite Hc, Hv, Hrun. simpl. rewrite length_app, Nat.add_1_r.
  rewrite Hsc, Hsv, Hsrun. simpl. by rewrite <- app_assoc.
Qed.

Lemma restart_wait_failure_aborts_witness :
  restartDeployment (faulty_world never_fails never_fails never_fails
                       (fails_at 8 "timed out waiting for the condition"))
    "host-operator-ns" (initial host_cluster) =
    (Ret (Some "timed out waiting for the condition"),
     {| cluster := {| deployments := [host_operator; registration_service]; pods := [] |};
        trace := [EvListDeployments "host-operator-ns" olm_label;
                  EvListDeployments "host-operator-ns" provider_label;
                  EvListPods (LabelSelectorAsSelector (deploy_Selector host_operator));
                  delete_event (host_pod "host-operator-1");
                  delete_event (host_pod "host-operator-2");
                  delete_event (host_pod "host-operator-3");
                  EvRolloutStatus "host-operator-ns" "provider=codeready-toolchain"]
                 ++ [restart_event "host-operator-ns" registration_service;
                     EvRolloutStatus "host-operator-ns" "provider=codeready-toolchain"] |}).
Proof.
  pose (discovered := [EvListDeployments "host-operator-ns" olm_label;
                       EvListDeployments "host-operator-ns" provider_label]).
  pose (st1 := {| cluster := host_cluster; trace := discovered |}).
  pose (st2 := {| cluster := {| deployments := [host_operator; registration_service];
                                pods := [] |};
                  trace := discovered
                           ++ [EvListPods (LabelSelectorAsSelector
                                             (deploy_Selector host_operator));
                               delete_event (host_pod "host-operator-1");
                               delete_event (host_pod "host-operator-2");
                               delete_event (host_pod "host-operator-3");
                               EvRolloutStatus "host-operator-ns"
                                 "provider=codeready-toolchain"] |}).
  apply (restart_wait_failure_aborts _ "host-operator-ns" (initial host_cluster)
           [host_operator] [] registration_service [] st1 st2 st2
           "timed out waiting for the condition");
    vm_compute; reflexivity.
Defined.

(** ** Where panics come from *)

Section PanicSource.

Variable w : World.

Lemma pfk_ret {A} (a : A) : panics_from_kubectl w (ret a).
Proof. by intros st _ e. Qed.

Lemma pfk_now : panics_from_kubectl w now.
Proof. by intros st _ e. Qed.

Lemma pfk_emit ev : panics_from_kubectl w (emit ev).
Proof. by intros st _ e. Qed.

Lemma pfk_get_cluster : panics_from_kubectl w get_cluster.
Proof. by intros st _ e. Qed.

Lemma pfk_put_cluster c : panics_from_kubectl w (put_cluster c).
Proof. by intros st _ e. Qed.

Lemma pfk_bind {A B} (c : M A) (k : A → M B) :
  panics_from_kubectl w c → (∀ a, panics_from_kubectl w (k a)) →
  panics_from_kubectl w (bind c k).
Proof.
  intros Hc Hk st _ e. specialize (Hc st I). unfold bind.
  destruct (c st) as [[a | e'] st'] eqn:E; simpl in *.
  - apply (Hk a st' I).
  - intros [= <-]. by apply Hc.
Qed.

Lemma pfk_for_each {A} (f : A → M (option error)) l :
  (∀ x, panics_from_kubectl w (f x)) → panics_from_kubectl w (for_each f l).
Proof.
  intros Hf. induction l as [| x l IH]; simpl; [apply pfk_ret |].
  apply pfk_bind; [apply Hf |]. intros [err |]; [apply pfk_ret | apply IH].
Qed.

(** Splits a computation that does not call kubectl along its [bind]s. *)
Ltac pfk_steps :=
  repeat first
    [ apply pfk_ret | apply pfk_now | apply pfk_emit | apply pfk_get_cluster
    | apply pfk_put_cluster
    | apply pfk_bind; [| intros ?]
    | match goal with
      | |- panics_from_kubectl _ (match ?x with _ => _ end) => destruct x
      | |- panics_from_kubectl _ (if ?x then _ else _) => destruct x
      end ].

Lemma pfk_cl_List_deployments ns want :
  panics_from_kubectl w (cl_List_deployments w ns want).
Proof. unfold cl_List_deployments. pfk_steps. Qed.

Lemma pfk_cl_List_pods sel : panics_from_kubectl w (cl_List_pods w sel).
Proof. unfold cl_List_pods. pfk_steps. Qed.

Lemma pfk_cl_Delete pod : panics_from_kubectl w (cl_Delete w pod).
Proof. unfold cl_Delete. pfk_steps. Qed.

Lemma pfk_checkRolloutStatus ns : panics_from_kubectl w (checkRolloutStatus w ns).
Proof.
  intros st _ e. unfold checkRolloutStatus, bind, now, emit, panic, ret. simpl.
  destruct (status_complete w _) as [e1 |] eqn:Hc; simpl.
  { intros [= <-]. exists (length (trace st)). auto. }
  destruct (status_validate w _ _ _) as [e2 |] eqn:Hv; simpl; [| done].
  intros [= <-]. exists (length (trace st)). right. right. right. eauto.
Qed.

Lemma pfk_restartNonOlmDeployments ns d :
  panics_from_kubectl w (restartNonOlmDeployments w ns d).
Proof.
  intros st _ e. unfold restartNonOlmDeployments, bind, now, emit, panic, ret. simpl.
  destruct (restart_complete w _) as [e1 |] eqn:Hc; simpl.
  { intros [= <-]. exists (length (trace st)). auto. }
  destruct (restart_validate w _ _ _) as [e2 |] eqn:Hv; simpl; [| done].
  intros [= <-]. exists (length (trace st)). right. left. eauto.
Qed.

Lemma pfk_deletePods d ns : panics_from_kubectl w (deletePods w d ns).
Proof.
  unfold deletePods. cbv zeta. apply pfk_bind; [apply pfk_cl_List_pods |].
  intros [items | err]; [| apply pfk_ret].
  apply pfk_bind; [apply pfk_for_each; intros; apply pfk_cl_Delete |].
  intros [err |]; [apply pfk_ret |].
  apply pfk_bind; [apply pfk_checkRolloutStatus |].
  intros [err |]; apply pfk_ret.
Qed.

Lemma pfk_restartDeployment ns : panics_from_kubectl w (restartDeployment w ns).
Proof.
  unfold restartDeployment, getExistingDeployments.
  apply pfk_bind.
  { apply pfk_bind; [apply pfk_cl_List_deployments |].
    intros [olm | err]; [| apply pfk_ret].
    apply pfk_bind; [apply pfk_cl_List_deployments |].
    intros [nonolm | err]; apply pfk_ret. }
  intros [[olm nonolm] [err |]]; [apply pfk_ret |].
  destruct olm as [olmItems |]; [| apply pfk_ret].
  apply pfk_bind; [apply pfk_for_each; intros; apply pfk_deletePods |].
  intros [err |]; [apply pfk_ret |].
  destruct nonolm as [nonOlmItems |]; [| apply pfk_ret].
  apply pfk_bind.
  { apply pfk_for_each. intros d.
    apply pfk_bind; [apply pfk_restartNonOlmDeployments |].
    intros [err |]; [apply pfk_ret |].
    apply pfk_bind; [apply pfk_checkRolloutStatus |].
    intros [err |]; apply pfk_ret. }
  intros [err |]; apply pfk_ret.
Qed.

Lemma pfk_restart clusterName ops : panics_from_kubectl w (restart w clusterName ops).
Proof.
  unfold restart, LoadClusterConfig, NewClient, AskForConfirmation.
  apply pfk_bind; [pfk_steps |].
  intros [cfg | err]; [| apply pfk_ret].
  apply pfk_bind; [pfk_steps |].
  intros [err |]; [apply pfk_ret |].
  destruct ops as [| operator rest]; [apply pfk_ret |].
  apply pfk_bind; [pfk_steps |].
  intros [|]; simpl; [apply pfk_restartDeployment | apply pfk_ret].
Qed.

End PanicSource.

(** X7: [restart] panics only with an error that kubectl's [Complete] or
    [Validate] returned for the rollout restart or the rollout status
    request.  Errors of the cluster client, of [RunRestart] and of the
    status [Run], and a refusal of the operator, never end in a panic. *)
Theorem panic_comes_from_kubectl w c clusterName ops e :
  (run_restart w c clusterName ops).1 = Panicked e → panic_source w e.
Proof. intros H. by apply (pfk_restart w clusterName ops (initial c) I). Qed.

Lemma panic_comes_from_kubectl_witness :
  panic_source broken_status_world "required resource not specified".
Proof.
  apply (panic_comes_from_kubectl broken_status_world host_cluster "host" ["host"]).
  vm_compute. reflexivity.
Defined.

(** X8: when kubectl's [Complete] and [Validate] never fail, [restart]
    returns: whatever the other calls answer, it does not panic. *)
Theorem restart_returns w c clusterName ops :
  (∀ t, restart_complete w t = None) →
  (∀ t ns rs, restart_validate w t ns rs = None) →
  (∀ t, status_complete w t = None) →
  (∀ t ns sel, status_validate w t ns sel = None) →
  ∃ err, (run_restart w c clusterName ops).1 = Ret err.
Proof.
  intros Hrc Hrv Hsc Hsv.
  destruct (run_restart w c clusterName ops).1 as [err | e] eqn:E; [by exists err |].
  destruct (pfk_restart w clusterName ops (initial c) I e E) as (t & [H | [H | [H | H]]]).
  - by rewrite Hrc in H.
  - destruct H as (ns & rs & H). by rewrite Hrv in H.
  - by rewrite Hsc in H.
  - destruct H as (ns & sel & H). by rewrite Hsv in H.
Qed.

Lemma restart_returns_witness :
  ∃ err, (run_restart (calm_world true) host_cluster "host" ["host"]).1 = Ret err.
Proof.
  apply (restart_returns (calm_world true) host_cluster "host" ["host"]); reflexivity.
Defined.

(** ** What a recycle leaves behind *)

Section Recycled.

Variable w : World.

Lemma cl_Delete_nil p st st' :
  cl_Delete w p st = (Ret None, st') →
  deployments (cluster st') = deployments (cluster st)
  ∧ pods (cluster st') = filter (λ q, same_pod p q = false) (pods (cluster st)).
Proof.
  unfold cl_Delete, bind, now, emit, get_cluster, put_cluster, ret. simpl.
  destruct (delete_fault w _); simpl; [discriminate |].
  destruct (existsb _ _); simpl; [| discriminate].
  by intros [= <-].
Qed.

Lemma for_each_Delete_cluster l st st' :
  for_each (cl_Delete w) l st = (Ret None, st') →
  deployments (cluster st') = deployments (cluster st)
  ∧ ∀ q, q ∈ pods (cluster st')
         ↔ q ∈ pods (cluster st) ∧ ∀ p, p ∈ l → pod_key p ≠ pod_key q.
Proof.
  revert st. induction l as [| p l IH]; intros st; simpl.
  - intros [= <-]. split; [done |]. intros q. split; [| tauto].
    intros Hq. split; [done |]. intros p Hp. by apply elem_of_nil in Hp.
  - unfold bind. destruct (cl_Delete w p st) as [[[err |] | e] st1] eqn:Hdel;
      try discriminate.
    apply cl_Delete_nil in Hdel as [Hdep Hpods].
    intros [Hdep' Hq]%IH. split; [congruence |].
    intros q. rewrite Hq, Hpods, list_elem_of_filter. split.
    + intros [[Hne Hin] Hl]. split; [done |].
      intros p' [-> | Hp']%elem_of_cons; [| by apply Hl].
      intros Hk. apply same_pod_key in Hk. congruence.
    + intros [Hin Hl]. split; [split; [| done] |].
      * destruct (same_pod p q) eqn:E; [| done].
        apply same_pod_key in E. destruct (Hl p); [left | done].
      * intros p' Hp'. apply Hl. by right.
Qed.

Lemma checkRolloutStatus_cluster ns st :
  cluster (checkRolloutStatus w ns st).2 = cluster st.
Proof.
  unfold checkRolloutStatus, bind, now, emit, panic, ret. simpl.
  destruct (status_complete w _); simpl; [done |].
  by destruct (status_validate w _ _ _).
Qed.

Lemma cl_List_pods_items sel st items st' :
  cl_List_pods w sel st = (Ret (inl items), st') →
  items = selected_pods sel (pods (cluster st)) ∧ cluster st' = cluster st.
Proof.
  unfold cl_List_pods, bind, now, emit, get_cluster, ret. simpl.
  destruct (list_fault w _); simpl; [discriminate |]. by intros [= <- <-].
Qed.

Lemma deletePods_nil d ns st st' :
  deletePods w d ns st = (Ret None, st') →
  deployments (cluster st') = deployments (cluster st)
  ∧ ∀ q, q ∈ pods (cluster st')
         ↔ q ∈ pods (cluster st)
           ∧ ∀ p, p ∈ selected_pods (LabelSelectorAsSelector (deploy_Selector d))
                        (pods (cluster st)) →
                  pod_key p ≠ pod_key q.
Proof.
  unfold deletePods. cbv zeta. unfold bind at 1.
  destruct (cl_List_pods w _ st) as [[[items | err] | e] st1] eqn:Hlist; try discriminate.
  apply cl_List_pods_items in Hlist as [-> Hc1].
  unfold bind at 1.
  destruct (for_each (cl_Delete w) _ st1) as [[[err |] | e] st2] eqn:Hdel;
    try discriminate.
  apply for_each_Delete_cluster in Hdel as [Hdep Hq]. rewrite Hc1 in Hdep, Hq.
  unfold bind at 1. pose proof (checkRolloutStatus_cluster ns st2) as Hc2.
  destruct (checkRolloutStatus w ns st2) as [[[err |] | e] st3]; try discriminate.
  simpl in *. intros [= <-]. by rewrite Hc2.
Qed.

End Recycled.



(** ** Runs in which no call fails, in general *)

Section CalmRun.

Variable w : World.
Hypothesis Hcalm : calm w.












End CalmRun.



(** ** The namespace of the calls *)

Section OneNamespace.

Variable w : World.
Variable P : Event → Prop.
Variable ns : string.

Hypothesis P_list_deployments : ∀ want, P (EvListDeployments ns want).
Hypothesis P_list_pods : ∀ sel, P (EvListPods sel).
Hypothesis P_delete : ∀ ns' name, P (EvDeletePod ns' name).
Hypothesis P_restart : ∀ rs, P (EvRolloutRestart ns rs).
Hypothesis P_status : P (EvRolloutStatus ns "provider=codeready-toolchain").

Lemma preserves_deletePods_in d : preserves P (deletePods w d ns).
Proof.
  unfold deletePods. apply preserves_bind; [by apply preserves_cl_List_pods |].
  intros [items | err]; [| apply preserves_ret].
  apply preserves_bind.
  { apply preserves_for_each. intros. by apply preserves_cl_Delete. }
  intros [err |]; [apply preserves_ret |].
  apply preserves_bind; [by apply preserves_checkRolloutStatus |].
  intros [err |]; apply preserves_ret.
Qed.

Lemma preserves_restartDeployment_in : preserves P (restartDeployment w ns).
Proof.
  unfold restartDeployment, getExistingDeployments.
  apply preserves_bind.
  { apply preserves_bind; [by apply preserves_cl_List_deployments |].
    intros [olm | err]; [| apply preserves_ret].
    apply preserves_bind; [by apply preserves_cl_List_deployments |].
    intros [nonolm | err]; apply preserves_ret. }
  intros [[olm nonolm] [err |]]; [apply preserves_ret |].
  destruct olm as [olmItems |]; [| apply preserves_ret].
  apply preserves_bind.
  { apply preserves_for_each. intros. apply preserves_deletePods_in. }
  intros [err |]; [apply preserves_ret |].
  destruct nonolm as [nonOlmItems |]; [| apply preserves_ret].
  apply preserves_bind.
  { apply preserves_for_each. intros d.
    apply preserves_bind; [by apply preserves_restartNonOlmDeployments |].
    intros [err |]; [apply preserves_ret |].
    apply preserves_bind; [by apply preserves_checkRolloutStatus |].
    intros [err |]; apply preserves_ret. }
  intros [err |]; apply preserves_ret.
Qed.

End OneNamespace.

(** X11: every list request for deployments, every rollout restart and
    every wait on the rollout status of a run names the operator namespace of
    the cluster configuration that was loaded, and no other. *)
Theorem calls_name_operator_namespace w c clusterName ops cfg :
  load_cluster_config w clusterName = inl cfg →
  Forall (in_namespace (OperatorNamespace cfg)) (trace (run_restart w c clusterName ops).2).
Proof.
  intros Hcfg.
  destruct (new_client w (Token cfg) (ServerAPI cfg)) as [err |] eqn:Hcl.
  { rewrite (restart_client_error _ _ _ _ _ _ Hcfg Hcl). simpl. by repeat constructor. }
  destruct ops as [| operator rest].
  { rewrite (restart_no_operator _ _ _ _ Hcfg Hcl). simpl. by repeat constructor. }
  rewrite (restart_confirmed _ _ _ _ _ _ Hcfg Hcl). cbv zeta.
  destruct (ask_for_confirmation w _); [| simpl; by repeat constructor].
  apply (preserves_restartDeployment_in w (in_namespace (OperatorNamespace cfg)));
    try done.
  simpl. by repeat constructor.
Qed.

Lemma calls_name_operator_namespace_witness :
  Forall (in_namespace (OperatorNamespace host_config))
         (trace (run_restart (calm_world true) host_cluster "host" ["host"]).2).
Proof.
  apply (calls_name_operator_namespace (calm_world true) host_cluster "host" ["host"]
           host_config).
  reflexivity.
Defined.

(** ** Which pods are deleted *)

Section Deleted.

Variable w : World.
Variable c : Cluster.
Variable ns : string.

Lemma within_emit ev st :
  within c ns st → deletes_selected c ns ev → within c ns (emit ev st).2.
Proof.
  intros (Hdep & Hpods & Htr) Hev. repeat split; simpl; [done | done |].
  apply Forall_app. auto.
Qed.

Lemma within_cl_List_deployments want :
  hoare (within c ns) (cl_List_deployments w ns want)
        (λ r st, within c ns st
                 ∧ ∀ items, r = Ret (inl items) →
                            items = matching_deployments ns want (deployments c)).
Proof.
  intros st Hst.
  assert (Hev : deletes_selected c ns (EvListDeployments ns want)) by (by intros ? ?).
  pose proof (within_emit _ _ Hst Hev) as Hst'. destruct Hst as (Hdep & _).
  unfold cl_List_deployments, bind, now, get_cluster, ret. simpl in *.
  destruct (list_fault w _); simpl; (split; [done |]); intros items [= <-].
  by rewrite Hdep.
Qed.

Lemma within_cl_List_pods sel :
  hoare (within c ns) (cl_List_pods w sel)
        (λ r st, within c ns st
                 ∧ ∀ items, r = Ret (inl items) →
                            ∀ p, p ∈ items → p ∈ selected_pods sel (pods c)).
Proof.
  intros st Hst.
  assert (Hev : deletes_selected c ns (EvListPods sel)) by (by intros ? ?).
  pose proof (within_emit _ _ Hst Hev) as Hst'. destruct Hst as (_ & Hpods & _).
  unfold cl_List_pods, bind, now, get_cluster, ret. simpl in *.
  destruct (list_fault w _); simpl; (split; [done |]); intros items [= <-] p.
  unfold selected_pods. rewrite !list_elem_of_filter. intros [Hsel Hin]. auto.
Qed.

Lemma within_cl_Delete p :
  deletes_selected c ns (delete_event p) →
  hoare (within c ns) (cl_Delete w p) (λ _ st, within c ns st).
Proof.
  intros Hev st Hst. destruct (within_emit _ _ Hst Hev) as (Hdep & Hpods & Htr).
  unfold cl_Delete, bind, now, get_cluster, put_cluster, ret. simpl in *.
  destruct (delete_fault w _); simpl; [done |].
  destruct (existsb _ _); simpl; [| done].
  repeat split; simpl; [done | | done].
  intros q [_ Hq]%list_elem_of_filter. auto.
Qed.

Lemma within_checkRolloutStatus ns' :
  hoare (within c ns) (checkRolloutStatus w ns') (λ _ st, within c ns st).
Proof.
  intros st Hst.
  assert (Hev : deletes_selected c ns
                  (EvRolloutStatus ns' "provider=codeready-toolchain")) by (by intros ? ?).
  pose proof (within_emit _ _ Hst Hev) as Hst'.
  unfold checkRolloutStatus, bind, now, panic, ret. simpl in *.
  destruct (status_complete w _); simpl; [done |].
  by destruct (status_validate w _ _ _).
Qed.

Lemma within_restartNonOlmDeployments ns' d :
  hoare (within c ns) (restartNonOlmDeployments w ns' d) (λ _ st, within c ns st).
Proof.
  intros st Hst.
  assert (Hev : deletes_selected c ns
                  (EvRolloutRestart ns' ["deployment/" +:+ deploy_Name d]))
    by (by intros ? ?).
  pose proof (within_emit _ _ Hst Hev) as Hst'.
  unfold restartNonOlmDeployments, bind, now, panic, ret. simpl in *.
  destruct (restart_complete w _); simpl; [done |].
  by destruct (restart_validate w _ _ _).
Qed.

Lemma within_deletePods d ns' :
  d ∈ matching_deployments ns olm_label (deployments c) →
  hoare (within c ns) (deletePods w d ns') (λ _ st, within c ns st).
Proof.
  intros Hd st Hst. unfold deletePods. cbv zeta. unfold bind at 1.
  destruct (within_cl_List_pods (LabelSelectorAsSelector (deploy_Selector d)) st Hst)
    as [H1 Hitems].
  destruct (cl_List_pods w _ st) as [[[items | err] | e] st1]; simpl in *;
    [| done | done].
  specialize (Hitems items eq_refl).
  assert (H2 : within c ns (for_each (cl_Delete w) items st1).2).
  { apply (hoare_for_each (within c ns) (λ _ st, within c ns st)); [| done | done].
    intros p Hp. eapply hoare_conseq.
    - apply within_cl_Delete. intros pns name [= <- <-]. exists d, p. auto.
    - done.
    - by intros [[err |] | e]. }
  unfold bind at 1.
  destruct (for_each (cl_Delete w) items st1) as [[[err |] | e] st2]; simpl in *;
    [done | | done].
  unfold bind at 1. pose proof (within_checkRolloutStatus ns' st2 H2) as H3.
  by destruct (checkRolloutStatus w ns' st2) as [[[err |] | e] st3].
Qed.

Lemma within_restart_body d :
  hoare (within c ns)
        (check restartNonOlmDeployments w ns d in
         check checkRolloutStatus w ns in
         ret None)
        (λ _ st, within c ns st).
Proof.
  eapply hoare_bind; [apply within_restartNonOlmDeployments | | done].
  intros [err |]; [by apply hoare_ret |].
  eapply hoare_bind; [apply within_checkRolloutStatus | | done].
  intros [err |]; by apply hoare_ret.
Qed.

Lemma within_restartDeployment :
  hoare (within c ns) (restartDeployment w ns) (λ _ st, within c ns st).
Proof.
  intros st Hst. unfold restartDeployment, getExistingDeployments.
  unfold bind at 1 2.
  destruct (within_cl_List_deployments olm_label st Hst) as [H1 Holm].
  fold olm_label. unfold olm_label at 1 in Holm.
  destruct (cl_List_deployments w ns _ st) as [[[olm | err] | e] st1]; simpl in *;
    [| done | done].
  specialize (Holm olm eq_refl). unfold bind at 1.
  destruct (within_cl_List_deployments provider_label st1 H1) as [H2 _].
  destruct (cl_List_deployments w ns _ st1) as [[[nonolm | err] | e] st2]; simpl in *;
    [| done | done].
  assert (H3 : within c ns
                 (for_each (λ olmDeployment, deletePods w olmDeployment ns) olm st2).2).
  { apply (hoare_for_each (within c ns) (λ _ st, within c ns st)); [| done | done].
    intros d Hd. eapply hoare_conseq.
    - apply within_deletePods. by rewrite <- Holm.
    - done.
    - by intros [[err |] | e]. }
  unfold bind at 1.
  destruct (for_each _ olm st2) as [[[err |] | e] st3]; simpl in *; [done | | done].
  assert (H4 : within c ns
                 (for_each (λ nonOlmDeployment,
                              check restartNonOlmDeployments w ns nonOlmDeployment in
                              check checkRolloutStatus w ns in
                              ret None) nonolm st3).2).
  { apply (hoare_for_each (within c ns) (λ _ st, within c ns st)); [| done | done].
    intros d _. eapply hoare_conseq; [apply within_restart_body | done |].
    by intros [[err |] | e]. }
  unfold bind at 1.
  by destruct (for_each _ nonolm st3) as [[[err |] | e] st4].
Qed.

End Deleted.

(** X12: the only pods a run deletes are pods of the cluster that the
    selector of an OLM deployment of the operator namespace selects: each
    deletion in the trace bears the namespace and the name of such a pod. *)
Theorem only_selected_pods_deleted w c clusterName ops cfg :
  load_cluster_config w clusterName = inl cfg →
  Forall (deletes_selected c (OperatorNamespace cfg))
         (trace (run_restart w c clusterName ops).2).
Proof.
  intros Hcfg.
  destruct (new_client w (Token cfg) (ServerAPI cfg)) as [err |] eqn:Hcl.
  { rewrite (restart_client_error _ _ _ _ _ _ Hcfg Hcl). simpl.
    by repeat constructor. }
  destruct ops as [| operator rest].
  { rewrite (restart_no_operator _ _ _ _ Hcfg Hcl). simpl. by repeat constructor. }
  rewrite (restart_confirmed _ _ _ _ _ _ Hcfg Hcl). cbv zeta.
  destruct (ask_for_confirmation w _); [| simpl; by repeat constructor].
  apply (within_restartDeployment w c (OperatorNamespace cfg)).
  repeat split; simpl; [done |]. by repeat constructor.
Qed.

Lemma only_selected_pods_deleted_witness :
  Forall (deletes_selected host_cluster (OperatorNamespace host_config))
         (trace (run_restart (calm_world true) host_cluster "host" ["host"]).2).
Proof.
  apply (only_selected_pods_deleted (calm_world true) host_cluster "host" ["host"]
           host_config).
  reflexivity.
Defined.

(** ** Which pods a recycle reaches *)

(** X13: in a cluster whose pods have distinct names and when no call
    fails, [deletePods] deletes every pod of the cluster that the selector of
    the deployment selects, and the pod is gone afterwards.  The namespace of
    the pod plays no part: the list request names none. *)
Theorem every_selected_pod_is_deleted w d ns st p :
  calm w →
  NoDup (pod_key <$> pods (cluster st)) →
  p ∈ pods (cluster st) →
  selects (LabelSelectorAsSelector (deploy_Selector d)) (pod_Labels p) = true →
  delete_event p ∈ trace (deletePods w d ns st).2
  ∧ p ∉ pods (cluster (deletePods w d ns st).2).
Proof.
  intros Hcalm Hnd Hin Hsel.
  assert (Hp : p ∈ selected_pods (LabelSelectorAsSelector (deploy_Selector d))
                     (pods (cluster st))).
  { unfold selected_pods. by apply list_elem_of_filter. }
  destruct (deletePods_ok w Hcalm d ns st Hnd) as (st' & Hrun & Htr & _).
  pose proof (deletePods_nil _ _ _ _ _ Hrun) as [_ Hq].
  rewrite Hrun. simpl. split.
  - rewrite Htr. apply elem_of_app. right. right.
    apply elem_of_app. left. by apply (list_elem_of_fmap_2 delete_event).
  - intros [_ Hno]%Hq. by apply (Hno p).
Qed.

Lemma every_selected_pod_is_deleted_witness :
  delete_event stray_pod
    ∈ trace (deletePods (calm_world true) host_operator "host-operator-ns"
               (initial shared_cluster)).2
  ∧ stray_pod
    ∉ pods (cluster (deletePods (calm_world true) host_operator "host-operator-ns"
                       (initial shared_cluster)).2).
Proof.
  apply (every_selected_pod_is_deleted (calm_world true) host_operator
           "host-operator-ns" (initial shared_cluster) stray_pod).
  - apply calm_world_calm.
  - apply (bool_decide_unpack _). vm_compute. exact I.
  - right. left.
  - vm_compute. reflexivity.
Defined.

(** X14: when the selector of the deployment selects no pod, [deletePods]
    deletes nothing but still waits on the rollout status, and returns what
    the wait returns. *)
Theorem recycle_without_pods w d ns st :
  list_fault w (length (trace st)) = None →
  selected_pods (LabelSelectorAsSelector (deploy_Selector d)) (pods (cluster st)) = [] →
  status_complete w (S (length (trace st))) = None →
  status_validate w (S (length (trace st))) ns "provider=codeready-toolchain" = None →
  deletePods w d ns st =
    (Ret (status_run w (S (length (trace st))) ns "provider=codeready-toolchain"),
     {| cluster := cluster st;
        trace := trace st ++ [list_pods_event d;
                              EvRolloutStatus ns "provider=codeready-toolchain"] |}).
Proof.
  intros Hlist Hnone Hc Hv.
  unfold deletePods, cl_List_pods, checkRolloutStatus, bind, now, emit, get_cluster,
    panic, ret.
  simpl. rewrite Hlist. simpl. rewrite Hnone. simpl.
  rewrite length_app, Nat.add_1_r, Hc, Hv. simpl. rewrite <- app_assoc.
  by destruct (status_run w _ _ _).
Qed.

Lemma recycle_without_pods_witness :
  deletePods (calm_world true) host_operator "host-operator-ns" (initial no_olm_cluster) =
    (Ret (status_run (calm_world true) (S (length (trace (initial no_olm_cluster))))
            "host-operator-ns" "provider=codeready-toolchain"),
     {| cluster := cluster (initial no_olm_cluster);
        trace := trace (initial no_olm_cluster)
                 ++ [list_pods_event host_operator;
                     EvRolloutStatus "host-operator-ns" "provider=codeready-toolchain"] |}).
Proof.
  apply (recycle_without_pods (calm_world true) host_operator "host-operator-ns"
           (initial no_olm_cluster)); reflexivity.
Defined.
